(** * Verification of the navigation core of [ei/main_view.py]

    numpy float64 arithmetic is modelled by exact real arithmetic; the
    special values numpy produces on a division by zero (a warning, not an
    exception) are kept explicit in [ext]. *)

From Stdlib Require Import ZArith Reals Lra Psatz List.
Import ListNotations.
Open Scope R_scope.
Open Scope bool_scope.

(** ** Floating-point values with numpy's special results *)

Inductive ext : Type :=
| Fin (r : R)
| PInf
| NInf
| NaN.

Definition Rltb (a b : R) : bool := if Rlt_dec a b then true else false.
Definition Rleb (a b : R) : bool := if Rle_dec a b then true else false.
Definition Reqb (a b : R) : bool := if Req_EM_T a b then true else false.

(** numpy true division [a / b] of finite operands whose zero denominator
    is [+0.0]: division by zero gives [inf], [-inf] or [nan] according to the
    sign of the numerator. *)
Definition np_div (a b : R) : ext :=
  if Reqb b 0 then
    if Rltb 0 a then PInf else if Rltb a 0 then NInf else NaN
  else Fin (a / b).

(** A float64 where the sign of a zero matters: [F r] is the value [r] (and
    [F 0] is [+0.0]), [NegZero] is [-0.0]. *)
Inductive flt : Type :=
| F (r : R)
| NegZero.

Definition fval (a : flt) : R :=
  match a with
  | F r => r
  | NegZero => 0
  end.

(** Unary [-a]: [-(+0.0)] is [-0.0] and [-(-0.0)] is [+0.0]. *)
Definition fneg (a : flt) : flt :=
  match a with
  | F r => if Reqb r 0 then NegZero else F (- r)
  | NegZero => F 0
  end.

(** [a - b] rounded to nearest: an exact zero difference is [+0.0], except
    [-0.0 - (+0.0)], which is [-0.0]. *)
Definition fsub (a b : flt) : flt :=
  match a, b with
  | NegZero, F r => if Reqb r 0 then NegZero else F (- r)
  | _, _ => F (fval a - fval b)
  end.

(** [a / b]: a zero denominator gives an infinity signed by
    [sign(a) * sign(b)], or [nan] for [0 / 0]; the sign of a zero quotient is
    not kept ([arctan] maps it to a zero of the same sign, which the
    bearing's later comparisons and sums do not distinguish). *)
Definition np_fdiv (a b : flt) : ext :=
  match b with
  | F r => np_div (fval a) r
  | NegZero => np_div (- fval a) 0
  end.

(** [v > c] and [v < c] for a float [v] and a finite constant [c]. *)
Definition ext_gt (v : ext) (c : R) : bool :=
  match v with
  | Fin r => Rltb c r
  | PInf => true
  | NInf | NaN => false
  end.

Definition ext_lt (v : ext) (c : R) : bool :=
  match v with
  | Fin r => Rltb r c
  | NInf => true
  | PInf | NaN => false
  end.

(** np.arctan: finite on infinities, [nan] stays [nan] ([None]). *)
Definition np_arctan (v : ext) : option R :=
  match v with
  | Fin r => Some (atan r)
  | PInf => Some (PI / 2)
  | NInf => Some (- (PI / 2))
  | NaN => None
  end.

(** ** Marker quad and [calculate_distance_from_qr_code] *)

Definition point : Type := (R * R)%type.

(** A detected quad: the four corners in detection order. *)
Record quad : Type := mk_quad { c0 : point; c1 : point; c2 : point; c3 : point }.

Definition corner (q : quad) (i : nat) : point :=
  match i with
  | O => c0 q
  | 1%nat => c1 q
  | 2%nat => c2 q
  | _ => c3 q
  end.

(** [distance_btw x y = np.sqrt(np.dot(x - y, x - y))] *)
Definition distance_btw (x y : point) : R :=
  let dx := fst x - fst y in
  let dy := snd x - snd y in
  sqrt (dx * dx + dy * dy).

(** [np.mean] of a list of floats. *)
Definition np_mean (l : list R) : R :=
  fold_right Rplus 0 l / INR (length l).

Definition edge_lengths (q : quad) : list R :=
  map (fun i => distance_btw (corner q i) (corner q (S i))) (seq 0 3).

Definition known_width : R := 100.
Definition known_distance : R := 40.

Definition calculate_distance_from_qr_code (q : quad) : ext :=
  let width := np_mean (edge_lengths q) in
  np_div (known_distance * known_width) width.

(** ** Guidance states and [MainView.update_state] *)

Definition MANUAL_MODE : Z := 0.
Definition QR_CODE_MODE : Z := 1.
Definition LIDAR_MODE : Z := 2.

Definition STATE_LOST : Z := 0.
Definition STATE_ALIGN_RIGHT : Z := 1.
Definition STATE_ALIGN_LEFT : Z := 2.
Definition STATE_FORWARD : Z := 3.
Definition STATE_BACKWARD : Z := 4.
Definition STATE_FINISH : Z := 5.

(** [np.mean(quad[:, 1])]: mean of the second coordinate of the corners. *)
Definition quad_position (q : quad) : R :=
  np_mean [snd (c0 q); snd (c1 q); snd (c2 q); snd (c3 q)].

(** [image_shape[:2]] is [(width, height)]; the state is the return value. *)
Definition update_state (image_shape : Z * Z) (oq : option quad) : Z :=
  let alignment_tolerance := 50 in
  let position_tolerance := 3 in
  let width := IZR (fst image_shape) in
  match oq with
  | None => STATE_LOST
  | Some q =>
      let position := quad_position q in
      let distance := calculate_distance_from_qr_code q in
      if Rltb (width / 2 + alignment_tolerance) position then STATE_ALIGN_RIGHT
      else if Rltb position (width / 2 - alignment_tolerance) then STATE_ALIGN_LEFT
      else if ext_gt distance (30 + position_tolerance) then STATE_FORWARD
      else if ext_lt distance (30 - position_tolerance) then STATE_BACKWARD
      else STATE_FINISH
  end.

(** ** The view's mutable state *)

(** PID history of one channel of the QR-code controller. *)
Record pid_hist : Type := mk_pid { lastErr : R; preLastErr : R; errSum : R }.

Definition fpoint : Type := (flt * flt)%type.

Record MainView : Type := mk_view {
  mode : Z;
  state : Z;
  last_state : Z;
  qr_code_center_x : R;
  distance_to_qr_code : R;
  (** [self.camera_image]: [None] until a frame arrives, else its width *)
  camera_image : option Z;
  pid_w : pid_hist;
  pid_l : pid_hist;
  (** [self.destination]: [None] is Python's [None]; a click can store
      [-0.0] in its first coordinate *)
  destination : option fpoint;
  (** [self.pos = (x_cm, y_cm, heading_deg)]; its coordinates are never
      [-0.0]: they start as the integers 0 and are then [p / 10 - 250] *)
  pos : R * R * R;
  last_angle : R;
  cumulative_error_angle : R }.

(** [MainView.__init__] (fields the control logic reads). *)
Definition init_view : MainView :=
  {| mode := MANUAL_MODE; state := STATE_FINISH; last_state := (-1)%Z;
     qr_code_center_x := 0; distance_to_qr_code := 0; camera_image := None;
     pid_w := mk_pid 0 0 0; pid_l := mk_pid 0 0 0;
     destination := Some (F 0, F 0); pos := (0, 0, 0);
     last_angle := 0; cumulative_error_angle := 0 |}.

Definition set_mode (m : Z) (v : MainView) : MainView :=
  {| mode := m; state := state v; last_state := last_state v;
     qr_code_center_x := qr_code_center_x v; distance_to_qr_code := distance_to_qr_code v;
     camera_image := camera_image v; pid_w := pid_w v; pid_l := pid_l v;
     destination := destination v; pos := pos v;
     last_angle := last_angle v; cumulative_error_angle := cumulative_error_angle v |}.

Definition set_destination_field (d : option fpoint) (v : MainView) : MainView :=
  {| mode := mode v; state := state v; last_state := last_state v;
     qr_code_center_x := qr_code_center_x v; distance_to_qr_code := distance_to_qr_code v;
     camera_image := camera_image v; pid_w := pid_w v; pid_l := pid_l v;
     destination := d; pos := pos v;
     last_angle := last_angle v; cumulative_error_angle := cumulative_error_angle v |}.

Definition set_qr_ctrl (pw pl : pid_hist) (ls : Z) (v : MainView) : MainView :=
  {| mode := mode v; state := state v; last_state := ls;
     qr_code_center_x := qr_code_center_x v; distance_to_qr_code := distance_to_qr_code v;
     camera_image := camera_image v; pid_w := pw; pid_l := pl;
     destination := destination v; pos := pos v;
     last_angle := last_angle v; cumulative_error_angle := cumulative_error_angle v |}.

Definition set_angle_hist (la ce : R) (v : MainView) : MainView :=
  {| mode := mode v; state := state v; last_state := last_state v;
     qr_code_center_x := qr_code_center_x v; distance_to_qr_code := distance_to_qr_code v;
     camera_image := camera_image v; pid_w := pid_w v; pid_l := pid_l v;
     destination := destination v; pos := pos v;
     last_angle := la; cumulative_error_angle := ce |}.

(** ** Published commands and the effect monad

    [cmd_vel_publisher.put(("Forward", v))] and [put(("Rotate", v))].  A
    computation runs on the view, publishes a list of commands, and either
    returns or raises a Python exception; commands put before the exception
    have been sent. *)

Inductive cmd : Type :=
| Forward (v : R)
| Rotate (v : R).

Definition M (A : Type) : Type := MainView -> list cmd * MainView * option A.

Definition ret {A} (a : A) : M A := fun v => ([], v, Some a).

Definition bind {A B} (m : M A) (f : A -> M B) : M B :=
  fun v =>
    match m v with
    | (o1, v1, None) => (o1, v1, None)
    | (o1, v1, Some a) => let '(o2, v2, r) := f a v1 in (o1 ++ o2, v2, r)
    end.

Notation "x <- m ;; k" := (bind m (fun x => k)) (at level 61, m at next level, right associativity).
Notation "m ;;; k" := (bind m (fun _ => k)) (at level 61, right associativity).

Definition get : M MainView := fun v => ([], v, Some v).
Definition modify (f : MainView -> MainView) : M unit := fun v => ([], f v, Some tt).
Definition put (c : cmd) : M unit := fun v => ([c], v, Some tt).
(** A raised Python exception; fields assigned before it keep their values. *)
Definition raise {A} : M A := fun v => ([], v, None).

Definition when (b : bool) (m : M unit) : M unit := if b then m else ret tt.

Definition published {A} (m : M A) (v : MainView) : list cmd := fst (fst (m v)).
Definition final_view {A} (m : M A) (v : MainView) : MainView := snd (fst (m v)).
Definition outcome {A} (m : M A) (v : MainView) : option A := snd (m v).

(** ** [MainView.set_movement] and [MainView.go_to_destination] *)

Definition set_movement (linear angular : R) : M unit :=
  put (Forward linear) ;;; put (Rotate angular).

(** [(np.pi + np.arctan(y / x) if x >= 0 else np.arctan(y / x)) * 180 / np.pi];
    [None] is [nan]. *)
Definition relative_position_angle (x y : flt) : option R :=
  match np_arctan (np_fdiv y x) with
  | None => None
  | Some t => Some ((if Rleb 0 (fval x) then PI + t else t) * 180 / PI)
  end.

Definition go_to_destination : M unit :=
  let alignment_tolerance := 4 in
  let position_tolerance := 5 in
  v <- get ;;
  match destination v with
  | None => set_movement 0 0
  | Some (dx, dy) =>
      let '(px, py, angle) := pos v in
      let x := fsub dx (F px) in
      let y := fsub dy (F py) in
      let relative_angle := option_map (fun a => a - angle) (relative_position_angle x y) in
      let relative_distance := sqrt (fval x ^ 2 + fval y ^ 2) in
      match relative_angle with
      | Some ra =>
          if Rltb alignment_tolerance (Rabs ra) && Rltb position_tolerance relative_distance then
            let alpha := 1 * ra + 2 * (ra - last_angle v) + 4 / 100 * cumulative_error_angle v in
            set_movement 0 alpha ;;;
            modify (set_angle_hist ra (cumulative_error_angle v + (ra - last_angle v)))
          else if Rltb position_tolerance relative_distance then set_movement 20 0
          else set_movement 0 0
      | None =>
          (* [abs(nan) > alignment_tolerance] is False *)
          if Rltb position_tolerance relative_distance then set_movement 20 0
          else set_movement 0 0
      end
  end.

(** ** Manual handlers, mode switches, [set_destination] *)

Definition manual_put (c : cmd) : M unit :=
  v <- get ;; when (Z.eqb (mode v) MANUAL_MODE) (put c).

Definition turtle_up : M unit := manual_put (Forward 20).
Definition turtle_down : M unit := manual_put (Forward (-20)).
Definition turtle_left : M unit := manual_put (Rotate 100).
Definition turtle_right : M unit := manual_put (Rotate (-100)).
Definition turtle_standby_up : M unit := manual_put (Forward 0).
Definition turtle_standby_down : M unit := manual_put (Forward 0).
Definition turtle_standby_left : M unit := manual_put (Rotate 0).
Definition turtle_standby_right : M unit := manual_put (Rotate 0).

Definition switch_to_manual : M unit := modify (set_mode MANUAL_MODE).
Definition switch_to_qrcode : M unit := modify (set_mode QR_CODE_MODE).
Definition switch_to_lidar : M unit := modify (set_mode LIDAR_MODE).

Definition set_destination (dest : option fpoint) : M unit :=
  modify (set_destination_field dest).

(** ** [MainView.mouse_input] (the part after [self.interface.mouse_input]) *)

Definition map_size_meters : R := 5.

Definition mouse_input (button : Z) (event_pos : Z * Z) : M unit :=
  when (Z.eqb button 1)
    (let p0 := (IZR (fst event_pos - 965) / 300 * map_size_meters - map_size_meters / 2) * 100 in
     let p1 := (IZR (snd event_pos - 405) / 300 * map_size_meters - map_size_meters / 2) * 100 in
     let p0 := fneg (F p0) in
     let bound := map_size_meters * 100 / 2 in
     when (Rltb (- bound) (fval p0) && Rltb (fval p0) bound)
       (when (Rltb (- bound) p1 && Rltb p1 bound)
          (modify (set_destination_field (Some (p0, F p1)))))).

(** ** [MainView.update] *)

(** [match self.state]: rotate for 1 and 2, forward for 3 and 4, else pass. *)
Definition dispatch_state (s : Z) (vel_w vel_l : R) : M unit :=
  if Z.eqb s 1 || Z.eqb s 2 then put (Rotate vel_w)
  else if Z.eqb s 3 || Z.eqb s 4 then put (Forward vel_l)
  else ret tt.

Definition qr_code_branch : M unit :=
  v <- get ;;
  when (negb (Z.eqb (state v) (last_state v)))
    (put (Forward 0) ;;;
     put (Rotate 0) ;;;
     match camera_image v with
     | None => raise  (* AttributeError: [None.get_width()] *)
     | Some width =>
         let err_w := - qr_code_center_x v + IZR width / 2 in
         let err_l := distance_to_qr_code v - 30 in
         let pw := pid_w v in
         let pl := pid_l v in
         let dErr_w := err_w - lastErr pw in
         let pw' := mk_pid err_w (lastErr pw) (errSum pw + err_w) in
         let vel_w := 4 / 10 * err_w + 0 * errSum pw' + 2 / 10 * dErr_w in
         let dErr_l := err_l - lastErr pl in
         let pl' := mk_pid err_l (lastErr pl) (errSum pl + err_l) in
         let vel_l := 15 / 10 * err_l + 0 * errSum pl' + 2 / 10 * dErr_l in
         let vel_l := Rmin vel_l 20 in
         modify (set_qr_ctrl pw' pl' (last_state v)) ;;;
         dispatch_state (state v) vel_w vel_l ;;;
         modify (set_qr_ctrl pw' pl' (state v))
     end).

(** [self.interface.update()] belongs to the GUI library and is not modelled. *)
Definition update : M unit :=
  v <- get ;;
  if Z.eqb (mode v) QR_CODE_MODE then qr_code_branch
  else if Z.eqb (mode v) LIDAR_MODE then go_to_destination
  else ret tt.

(** ** [MainView.camera_image_callback]

    Decoding, QR detection and [solvePnP] are done by OpenCV; the callback is
    modelled from their results: the shape of the rotated image, the first
    detected quad ([points[0]] or [None]) and [np.linalg.norm(tvec)] ([0]
    when [solvePnP] fails and [tvec = []]). *)

Record frame : Type := mk_frame {
  frame_shape : Z * Z;
  frame_quad : option quad;
  frame_tvec_norm : R }.

Definition camera_image_callback (f : frame) : M unit :=
  modify (fun v =>
    {| mode := mode v;
       state := update_state (frame_shape f) (frame_quad f);
       last_state := last_state v;
       qr_code_center_x :=
         match frame_quad f with Some q => quad_position q | None => qr_code_center_x v end;
       distance_to_qr_code :=
         match frame_quad f with Some _ => frame_tvec_norm f * 4 | None => distance_to_qr_code v end;
       (* [pygame.surfarray.make_surface(image)] is [image.shape[0]] wide *)
       camera_image := Some (fst (frame_shape f));
       pid_w := pid_w v; pid_l := pid_l v;
       destination := destination v; pos := pos v;
       last_angle := last_angle v; cumulative_error_angle := cumulative_error_angle v |}).

(** ** [MainView.lidar_scan_callback] *)

(** The fields of the [LaserScan] message the callback reads. *)
Record LaserScan : Type := mk_scan { ranges : list R; intensities : list R }.

(** Python's [int()] on a float: truncation towards zero. *)
Definition py_int (r : R) : Z :=
  if Rle_dec 0 r then Int_part r else (- Int_part (- r))%Z.

(** The centre of the dot drawn for a kept sample at [angles[i] = a]. *)
Definition scan_dot (a : Z) (distance : R) : Z * Z :=
  let real_distance := distance / 750 * 300 in
  let angle := IZR a * PI / 180 in
  let x := py_int (300 + real_distance * cos angle) in
  let y := py_int (300 + real_distance * sin angle) in
  (x, y).

(** The loop [for i, distance in enumerate(distances)]: the centres of the
    green dots drawn on the instant-scan image; [angles[i]] past the end of
    [angles] raises IndexError ([None]). *)
Fixpoint draw_scan (angles : list Z) (i : nat) (distances : list R) : option (list (Z * Z)) :=
  match distances with
  | [] => Some []
  | distance :: rest =>
      if Rltb distance 750 then
        match nth_error angles i with
        | None => None
        | Some a =>
            match draw_scan angles (S i) rest with
            | None => None
            | Some pts => Some (scan_dot a distance :: pts)
            end
        end
      else draw_scan angles (S i) rest
  end.

Definition set_pos (p : R * R * R) (v : MainView) : MainView :=
  {| mode := mode v; state := state v; last_state := last_state v;
     qr_code_center_x := qr_code_center_x v; distance_to_qr_code := distance_to_qr_code v;
     camera_image := camera_image v; pid_w := pid_w v; pid_l := pid_l v;
     destination := destination v; pos := p;
     last_angle := last_angle v; cumulative_error_angle := cumulative_error_angle v |}.

(** Returns what is handed to [slam.update] ([scans_mm], [scan_angles_degrees])
    and the dots of the instant-scan image.  The localization service is a
    black box: [slam_pose] is what [self.slam.getpos()] answers. *)
Definition lidar_scan_callback (scan : LaserScan) (slam_pose : R * R * R)
  : M (list R * list Z * list (Z * Z)) :=
  let angles := map Z.of_nat (seq 0 360) in
  let distances := map (fun z => z * 1000) (ranges scan) in
  let '(sx, sy, sa) := slam_pose in
  modify (set_pos (sx / 10 - map_size_meters * 100 / 2,
                   sy / 10 - map_size_meters * 100 / 2, sa)) ;;;
  match draw_scan angles 0 distances with
  | None => raise
  | Some cloud => ret (distances, angles, cloud)
  end.

(** ** The operations of [MainView]

    [keyboard_input] and the GUI buttons dispatch to the handlers below;
    [render], [quit] and [mouse_motion] change no field. *)

Inductive op : Type :=
| OpCameraFrame (f : frame)
| OpLidarScan (s : LaserScan) (slam_pose : R * R * R)
| OpUpdate
| OpGoToDestination
| OpSetMovement (linear angular : R)
| OpTurtleUp | OpTurtleDown | OpTurtleLeft | OpTurtleRight
| OpStandbyUp | OpStandbyDown | OpStandbyLeft | OpStandbyRight
| OpSwitchManual | OpSwitchQRCode | OpSwitchLidar
| OpMouseInput (button : Z) (event_pos : Z * Z)
| OpSetDestination (dest : option fpoint).

Definition run_op (o : op) : M unit :=
  match o with
  | OpCameraFrame f => camera_image_callback f
  | OpLidarScan s p => lidar_scan_callback s p ;;; ret tt
  | OpUpdate => update
  | OpGoToDestination => go_to_destination
  | OpSetMovement l a => set_movement l a
  | OpTurtleUp => turtle_up
  | OpTurtleDown => turtle_down
  | OpTurtleLeft => turtle_left
  | OpTurtleRight => turtle_right
  | OpStandbyUp => turtle_standby_up
  | OpStandbyDown => turtle_standby_down
  | OpStandbyLeft => turtle_standby_left
  | OpStandbyRight => turtle_standby_right
  | OpSwitchManual => switch_to_manual
  | OpSwitchQRCode => switch_to_qrcode
  | OpSwitchLidar => switch_to_lidar
  | OpMouseInput b p => mouse_input b p
  | OpSetDestination d => set_destination d
  end.

(** The view after a sequence of operations (an exception ends an operation,
    not the sequence). *)
Fixpoint run_ops (os : list op) (v : MainView) : MainView :=
  match os with
  | [] => v
  | o :: rest => run_ops rest (final_view (run_op o) v)
  end.

(** ** Specification-side predicates *)

(** The six conditions of the guidance decision, each with the tie-break of
    the conditions before it. *)
Definition guidance_cond (s : Z) (image_shape : Z * Z) (oq : option quad) : Prop :=
  match oq with
  | None => s = STATE_LOST
  | Some q =>
      let p := quad_position q in
      let d := calculate_distance_from_qr_code q in
      let hw := IZR (fst image_shape) / 2 in
      (s = STATE_ALIGN_RIGHT /\ p > hw + 50) \/
      (s = STATE_ALIGN_LEFT /\ p <= hw + 50 /\ p < hw - 50) \/
      (s = STATE_FORWARD /\ hw - 50 <= p <= hw + 50 /\ ext_gt d 33 = true) \/
      (s = STATE_BACKWARD /\ hw - 50 <= p <= hw + 50 /\ ext_gt d 33 = false /\
         ext_lt d 27 = true) \/
      (s = STATE_FINISH /\ hw - 50 <= p <= hw + 50 /\ ext_gt d 33 = false /\
         ext_lt d 27 = false)
  end.

(** ** Basic lemmas *)

Lemma Rltb_true (a b : R) : a < b -> Rltb a b = true.
Proof. intro H. unfold Rltb. destruct (Rlt_dec a b); [reflexivity | contradiction]. Qed.

Lemma Rltb_false (a b : R) : ~ a < b -> Rltb a b = false.
Proof. intro H. unfold Rltb. destruct (Rlt_dec a b); [contradiction | reflexivity]. Qed.

Lemma Rltb_spec (a b : R) : Rltb a b = true <-> a < b.
Proof. unfold Rltb. destruct (Rlt_dec a b); split; intro; auto; discriminate. Qed.

Lemma Rleb_true (a b : R) : a <= b -> Rleb a b = true.
Proof. intro H. unfold Rleb. destruct (Rle_dec a b); [reflexivity | contradiction]. Qed.

Lemma Rleb_false (a b : R) : ~ a <= b -> Rleb a b = false.
Proof. intro H. unfold Rleb. destruct (Rle_dec a b); [contradiction | reflexivity]. Qed.

Lemma np_div_nonzero (a b : R) : b <> 0 -> np_div a b = Fin (a / b).
Proof.
  intro H. unfold np_div, Reqb. destruct (Req_EM_T b 0); [contradiction | reflexivity].
Qed.

Lemma np_div_zero_pos (a : R) : 0 < a -> np_div a 0 = PInf.
Proof.
  intro H. unfold np_div, Reqb. destruct (Req_EM_T 0 0) as [_|n]; [|now elim n].
  now rewrite Rltb_true.
Qed.

Lemma np_div_zero_neg (a : R) : a < 0 -> np_div a 0 = NInf.
Proof.
  intro H. unfold np_div, Reqb. destruct (Req_EM_T 0 0) as [_|n]; [|now elim n].
  rewrite Rltb_false by lra. now rewrite Rltb_true.
Qed.

Ltac case_Rltb :=
  repeat match goal with
  | |- context [Rltb ?a ?b] =>
      let H := fresh "H" in
      destruct (Rlt_dec a b) as [H|H];
      [rewrite (Rltb_true a b H) | rewrite (Rltb_false a b H)]; cbv iota
  end.

(** The edge lengths are square roots, hence non-negative. *)
Lemma edge_lengths_mean (q : quad) :
  np_mean (edge_lengths q) =
  (distance_btw (c0 q) (c1 q) + distance_btw (c1 q) (c2 q) + distance_btw (c2 q) (c3 q)) / 3.
Proof. unfold np_mean, edge_lengths. simpl. f_equal; [ring | field]. Qed.

Lemma distance_btw_nonneg (x y : point) : 0 <= distance_btw x y.
Proof. unfold distance_btw. apply sqrt_pos. Qed.

(** ** Claims *)

(** C1: [update_state] is a total function of the image shape and the quad:
    its value is exactly the state whose condition holds under the
    first-match-wins order (LOST when the quad is absent, then ALIGN_RIGHT
    when the mean second coordinate exceeds half the width plus 50, then
    ALIGN_LEFT below half the width minus 50, then FORWARD when the distance
    exceeds 33, BACKWARD below 27, else FINISH), exactly one condition holds,
    and the result is one of the six states. *)
Theorem update_state_first_match (image_shape : Z * Z) (oq : option quad) :
  (forall s, update_state image_shape oq = s <-> guidance_cond s image_shape oq) /\
  (exists! s, guidance_cond s image_shape oq) /\
  In (update_state image_shape oq)
     [STATE_LOST; STATE_ALIGN_RIGHT; STATE_ALIGN_LEFT; STATE_FORWARD; STATE_BACKWARD; STATE_FINISH].
Proof.
  assert (Hiff : forall s, update_state image_shape oq = s <-> guidance_cond s image_shape oq).
  { intro s. destruct oq as [q|]; simpl; [|split; intro; congruence].
    set (p := quad_position q). set (d := calculate_distance_from_qr_code q).
    set (hw := IZR (fst image_shape) / 2).
    split.
    - intro E; subst s. case_Rltb.
      + left. split; [reflexivity | lra].
      + right; left. split; [reflexivity | lra].
      + destruct (ext_gt d (30 + 3)) eqn:G.
        * right; right; left. replace 33 with (30 + 3) by lra. repeat split; auto; lra.
        * destruct (ext_lt d (30 - 3)) eqn:L.
          -- right; right; right; left. replace 33 with (30 + 3) by lra.
             replace 27 with (30 - 3) by lra. repeat split; auto; lra.
          -- right; right; right; right. replace 33 with (30 + 3) by lra.
             replace 27 with (30 - 3) by lra. repeat split; auto; lra.
    - replace 33 with (30 + 3) by lra. replace 27 with (30 - 3) by lra.
      intros [[E H]|[[E [H1 H2]]|[[E [H1 G]]|[[E [H1 [G L]]]|[E [H1 [G L]]]]]]]; subst s;
        case_Rltb; try lra; try rewrite G; try rewrite L; reflexivity. }
  split; [exact Hiff|]. split.
  - exists (update_state image_shape oq). split.
    + apply Hiff. reflexivity.
    + intros s' Hs'. apply Hiff in Hs'. exact Hs'.
  - unfold update_state. destruct oq as [q|]; [|left; reflexivity].
    case_Rltb; [| |destruct (ext_gt _ _); [|destruct (ext_lt _ _)]];
      repeat (first [left; reflexivity | right]).
Qed.

Lemma distance_btw_same (x : point) : distance_btw x x = 0.
Proof.
  unfold distance_btw. replace ((fst x - fst x) * (fst x - fst x) + (snd x - snd x) * (snd x - snd x))
    with 0 by ring. apply sqrt_0.
Qed.

(** A marker collapsed to the point [(0, 50)]. *)
Definition collapsed_quad : quad :=
  mk_quad (0, 50) (0, 50) (0, 50) (0, 50).

Definition unit_square : quad :=
  mk_quad (0, 0) (1, 0) (1, 1) (0, 1).

Lemma collapsed_quad_mean : np_mean (edge_lengths collapsed_quad) = 0.
Proof.
  rewrite edge_lengths_mean. unfold collapsed_quad; simpl.
  rewrite !distance_btw_same. field.
Qed.

(** C2 (amended): when the three leading edges have positive length the
    estimate is the finite positive value [4000 / mean edge length]; the code
    has no degenerate-geometry check, and a quad whose mean leading edge
    length is zero yields numpy's [+inf] instead of an error, and
    [update_state] then never reports such a quad as lost: it aligns, or,
    when the quad's mean second coordinate is within 50 of half the image
    width, drives FORWARD. *)
Theorem calculate_distance_positive_or_inf (q : quad) :
  (0 < distance_btw (c0 q) (c1 q) -> 0 < distance_btw (c1 q) (c2 q) ->
   0 < distance_btw (c2 q) (c3 q) ->
   exists d, calculate_distance_from_qr_code q = Fin d /\ 0 < d /\
             d = known_distance * known_width / np_mean (edge_lengths q)) /\
  (np_mean (edge_lengths q) = 0 -> calculate_distance_from_qr_code q = PInf) /\
  (np_mean (edge_lengths q) = 0 -> forall image_shape : Z * Z,
   update_state image_shape (Some q) <> STATE_LOST /\
   (IZR (fst image_shape) / 2 - 50 <= quad_position q <= IZR (fst image_shape) / 2 + 50 ->
    update_state image_shape (Some q) = STATE_FORWARD)).
Proof.
  assert (Hinf : np_mean (edge_lengths q) = 0 -> calculate_distance_from_qr_code q = PInf).
  { intro H. unfold calculate_distance_from_qr_code. rewrite H.
    apply np_div_zero_pos. unfold known_distance, known_width. lra. }
  split; [|split; [exact Hinf|]].
  - intros H1 H2 H3.
    assert (Hm : 0 < np_mean (edge_lengths q)) by (rewrite edge_lengths_mean; lra).
    exists (known_distance * known_width / np_mean (edge_lengths q)).
    unfold calculate_distance_from_qr_code. rewrite np_div_nonzero by lra.
    split; [reflexivity|]. split; [|reflexivity].
    unfold known_distance, known_width. apply Rdiv_lt_0_compat; lra.
  - intros H image_shape. unfold update_state. cbv zeta. rewrite (Hinf H). cbn [ext_gt].
    split.
    + destruct (Rltb _ _); [discriminate|]. destruct (Rltb _ _); discriminate.
    + intro Hc. rewrite !Rltb_false by lra. reflexivity.
Qed.

Lemma calculate_distance_positive_or_inf_witness :
  (0 < distance_btw (c0 unit_square) (c1 unit_square) /\
   0 < distance_btw (c1 unit_square) (c2 unit_square) /\
   0 < distance_btw (c2 unit_square) (c3 unit_square)) /\
  (exists d, calculate_distance_from_qr_code unit_square = Fin d /\ 0 < d) /\
  np_mean (edge_lengths collapsed_quad) = 0 /\
  calculate_distance_from_qr_code collapsed_quad = PInf /\
  update_state (100, 100)%Z (Some collapsed_quad) = STATE_FORWARD.
Proof.
  assert (H1 : 0 < distance_btw (c0 unit_square) (c1 unit_square))
    by (unfold distance_btw; simpl; apply sqrt_lt_R0; lra).
  assert (H2 : 0 < distance_btw (c1 unit_square) (c2 unit_square))
    by (unfold distance_btw; simpl; apply sqrt_lt_R0; lra).
  assert (H3 : 0 < distance_btw (c2 unit_square) (c3 unit_square))
    by (unfold distance_btw; simpl; apply sqrt_lt_R0; lra).
  split; [tauto|]. split.
  - destruct (proj1 (calculate_distance_positive_or_inf unit_square) H1 H2 H3)
      as [d [Hd [Hp _]]].
    exists d. tauto.
  - split; [exact collapsed_quad_mean|]. split.
    + exact (proj1 (proj2 (calculate_distance_positive_or_inf collapsed_quad))
               collapsed_quad_mean).
    + apply (proj2 (proj2 (proj2 (calculate_distance_positive_or_inf collapsed_quad))
                      collapsed_quad_mean (100, 100)%Z)).
      assert (Hp : quad_position collapsed_quad = 50)
        by (unfold quad_position, np_mean; simpl; field).
      rewrite Hp. cbn [fst]. lra.
Defined.

(** C2 (counterexample): the collapsed marker is not rejected: the estimate
    is [+inf] and the state machine classifies the marker as present and far
    (FORWARD), not as "no marker" (LOST). *)
Lemma collapsed_marker_not_rejected :
  calculate_distance_from_qr_code collapsed_quad = PInf /\
  update_state (100, 100)%Z (Some collapsed_quad) = STATE_FORWARD.
Proof.
  assert (Hd : calculate_distance_from_qr_code collapsed_quad = PInf).
  { unfold calculate_distance_from_qr_code. rewrite collapsed_quad_mean.
    apply np_div_zero_pos. unfold known_distance, known_width. lra. }
  split; [exact Hd|].
  unfold update_state. cbv zeta. rewrite Hd.
  assert (Hp : quad_position collapsed_quad = 50)
    by (unfold quad_position, np_mean; simpl; field).
  rewrite Hp. cbn [fst]. rewrite !Rltb_false by lra. reflexivity.
Qed.

(** ** The QR-code branch of [update] *)

Lemma bind_get {A} (k : MainView -> M A) (v : MainView) :
  bind get k v = k v v.
Proof. unfold bind, get. destruct (k v v) as [[o w] r]. reflexivity. Qed.

Lemma bind_ret {A B} (a : A) (k : A -> M B) (v : MainView) :
  bind (ret a) k v = k a v.
Proof. unfold bind, ret. destruct (k a v) as [[o w] r]. reflexivity. Qed.

Lemma update_qr_mode (v : MainView) :
  mode v = QR_CODE_MODE -> update v = qr_code_branch v.
Proof. intro H. unfold update. rewrite bind_get, H. reflexivity. Qed.

Lemma qr_code_branch_same_state (v : MainView) :
  state v = last_state v -> qr_code_branch v = ([], v, Some tt).
Proof.
  intro H. unfold qr_code_branch. rewrite bind_get. unfold when. rewrite H, Z.eqb_refl.
  reflexivity.
Qed.

Lemma qr_code_branch_no_frame (v : MainView) :
  state v <> last_state v -> camera_image v = None ->
  qr_code_branch v = ([Forward 0; Rotate 0], v, None).
Proof.
  intros H Hc. unfold qr_code_branch. rewrite bind_get. unfold when.
  rewrite (proj2 (Z.eqb_neq _ _) H). simpl. rewrite Hc. reflexivity.
Qed.

(** On a state change with a frame: the settle pair, then the command the
    state selects, and [last_state] updated. *)
Lemma qr_code_branch_changed (v : MainView) (width : Z) :
  state v <> last_state v -> camera_image v = Some width ->
  exists vel_w vel_l,
    published qr_code_branch v =
      [Forward 0; Rotate 0] ++
      (if Z.eqb (state v) 1 || Z.eqb (state v) 2 then [Rotate vel_w]
       else if Z.eqb (state v) 3 || Z.eqb (state v) 4 then [Forward vel_l] else []) /\
    last_state (final_view qr_code_branch v) = state v /\
    state (final_view qr_code_branch v) = state v /\
    mode (final_view qr_code_branch v) = mode v /\
    outcome qr_code_branch v = Some tt.
Proof.
  intros H Hc. unfold published, final_view, outcome, qr_code_branch. rewrite bind_get.
  unfold when. rewrite (proj2 (Z.eqb_neq _ _) H). simpl. rewrite Hc.
  unfold modify, dispatch_state.
  eexists; eexists.
  destruct (Z.eqb (state v) 1 || Z.eqb (state v) 2);
    [|destruct (Z.eqb (state v) 3 || Z.eqb (state v) 4)]; simpl;
    repeat split; reflexivity.
Qed.

(** C3 (code_bug): on the view just switched to QR-code mode before any
    camera frame ([state = FINISH], [last_state = -1], no camera image) the
    state has changed, yet [update] publishes the settle pair and then
    raises AttributeError on [self.camera_image.get_width()]: no command for
    the state is sent and [last_state] is not recorded, so the same happens
    on every later cycle until a frame arrives. *)
Theorem qr_update_without_frame_faults :
  let v := final_view switch_to_qrcode init_view in
  state v <> last_state v /\
  published update v = [Forward 0; Rotate 0] /\
  outcome update v = None /\
  last_state (final_view update v) = (-1)%Z /\
  published update (final_view update v) = [Forward 0; Rotate 0].
Proof.
  intro v.
  assert (Hm : mode v = QR_CODE_MODE) by reflexivity.
  assert (Hc : camera_image v = None) by reflexivity.
  assert (Hl : last_state v = (-1)%Z) by reflexivity.
  assert (Hs : state v <> last_state v) by (simpl; discriminate).
  clearbody v.
  assert (Hu : update v = ([Forward 0; Rotate 0], v, None)).
  { rewrite (update_qr_mode _ Hm). exact (qr_code_branch_no_frame _ Hs Hc). }
  unfold published, outcome, final_view. rewrite Hu. simpl. rewrite Hu.
  repeat split; auto.
Qed.

(** C7 (code_bug): in QR-code mode with no camera frame received, a cycle
    in which the state differs from [last_state] publishes the zero pair and
    then faults (the outcome is an exception), rather than holding zero
    velocity without faulting. *)
Theorem qr_update_missing_frame_raises (v : MainView) :
  mode v = QR_CODE_MODE -> camera_image v = None -> state v <> last_state v ->
  published update v = [Forward 0; Rotate 0] /\ outcome update v = None /\
  final_view update v = v.
Proof.
  intros Hm Hc Hs. unfold published, outcome, final_view.
  rewrite (update_qr_mode _ Hm), (qr_code_branch_no_frame _ Hs Hc).
  repeat split; reflexivity.
Qed.

Lemma qr_update_missing_frame_raises_witness :
  let v := final_view switch_to_qrcode init_view in
  mode v = QR_CODE_MODE /\ camera_image v = None /\ state v <> last_state v /\
  outcome update v = None.
Proof.
  cbv zeta.
  assert (H1 : mode (final_view switch_to_qrcode init_view) = QR_CODE_MODE) by reflexivity.
  assert (H2 : camera_image (final_view switch_to_qrcode init_view) = None) by reflexivity.
  assert (H3 : state (final_view switch_to_qrcode init_view) <>
               last_state (final_view switch_to_qrcode init_view)) by (simpl; discriminate).
  split; [exact H1|]. split; [exact H2|]. split; [exact H3|].
  exact (proj1 (proj2 (qr_update_missing_frame_raises _ H1 H2 H3))).
Defined.

(** ** Mode gating of the publishers *)

Definition manual_handlers : list (M unit) :=
  [turtle_up; turtle_down; turtle_left; turtle_right;
   turtle_standby_up; turtle_standby_down; turtle_standby_left; turtle_standby_right].

Lemma manual_put_gated (c : cmd) (v : MainView) :
  published (manual_put c) v <> [] -> mode v = MANUAL_MODE.
Proof.
  unfold published, manual_put. rewrite bind_get. unfold when.
  destruct (Z.eqb (mode v) MANUAL_MODE) eqn:E.
  - intros _. now apply Z.eqb_eq.
  - simpl. intro H. now elim H.
Qed.

Lemma lidar_scan_callback_silent (s : LaserScan) (p : R * R * R) (v : MainView) :
  published (lidar_scan_callback s p) v = [].
Proof.
  unfold published, lidar_scan_callback. destruct p as [[sx sy] sa].
  unfold bind, modify. destruct (draw_scan _ _ _); reflexivity.
Qed.

(** C9: velocity commands are published only by the handler of the selected
    mode: the eight manual key handlers publish only when the mode is
    MANUAL; [update] publishes only when the mode is QR_CODE or LIDAR, runs
    the marker-following branch exactly when the mode is QR_CODE and
    [go_to_destination] exactly when it is LIDAR; the sensor callbacks and
    the mouse handler publish nothing. *)
Theorem mode_gated_publishing :
  (forall h v, In h manual_handlers -> published h v <> [] -> mode v = MANUAL_MODE) /\
  (forall v, published update v <> [] -> mode v = QR_CODE_MODE \/ mode v = LIDAR_MODE) /\
  (forall v, mode v = QR_CODE_MODE -> update v = qr_code_branch v) /\
  (forall v, mode v = LIDAR_MODE -> update v = go_to_destination v) /\
  (forall v, mode v <> QR_CODE_MODE -> mode v <> LIDAR_MODE -> update v = ([], v, Some tt)) /\
  (forall f v, published (camera_image_callback f) v = []) /\
  (forall s p v, published (lidar_scan_callback s p) v = []) /\
  (forall b e v, published (mouse_input b e) v = []).
Proof.
  split.
  { intros h v Hin. unfold manual_handlers in Hin.
    repeat (destruct Hin as [<-|Hin]; [apply manual_put_gated|]). destruct Hin. }
  split.
  { intros v. unfold published, update. rewrite bind_get.
    destruct (Z.eqb (mode v) QR_CODE_MODE) eqn:E1; [intros _; left; now apply Z.eqb_eq|].
    destruct (Z.eqb (mode v) LIDAR_MODE) eqn:E2; [intros _; right; now apply Z.eqb_eq|].
    simpl. intro H. now elim H. }
  split; [exact update_qr_mode|].
  split.
  { intros v H. unfold update. rewrite bind_get, H. reflexivity. }
  split.
  { intros v H1 H2. unfold update. rewrite bind_get.
    rewrite (proj2 (Z.eqb_neq _ _) H1), (proj2 (Z.eqb_neq _ _) H2). reflexivity. }
  split; [reflexivity|].
  split; [exact lidar_scan_callback_silent|].
  intros b e v. unfold published, mouse_input, when.
  destruct (Z.eqb b 1); [|reflexivity].
  destruct (_ && _); [|reflexivity]. destruct (_ && _); reflexivity.
Qed.

Lemma mode_gated_publishing_witness :
  let v := final_view switch_to_lidar init_view in
  mode init_view = MANUAL_MODE /\ update v = go_to_destination v /\
  update init_view = ([], init_view, Some tt).
Proof.
  cbv zeta. destruct mode_gated_publishing as (Hman & _ & _ & Hlid & Hoff & _).
  split.
  - apply (Hman turtle_up init_view); [simpl; auto|].
    unfold published, turtle_up.
    rewrite (eq_refl : manual_put (Forward 20) init_view = ([Forward 20], init_view, Some tt)).
    discriminate.
  - split; [apply Hlid; reflexivity|]. apply Hoff; discriminate.
Defined.

(** ** The waypoint controller *)

Lemma set_movement_then (l a : R) (k : M unit) (v : MainView) :
  published (set_movement l a ;;; k) v = Forward l :: Rotate a :: published k v.
Proof.
  unfold published, set_movement, bind, put. simpl.
  destruct (k v) as [[o w] r]. reflexivity.
Qed.

Lemma set_movement_published (l a : R) (v : MainView) :
  published (set_movement l a) v = [Forward l; Rotate a].
Proof. reflexivity. Qed.

(** Bearing when the x-delta is zero: [y / (+0.0)] is [+inf] or [-inf] by
    the sign of [y], [y / (-0.0)] the opposite infinity. *)
Lemma relative_position_angle_x0_pos (y : flt) :
  0 < fval y -> relative_position_angle (F 0) y = Some 270.
Proof.
  intro H. unfold relative_position_angle, np_fdiv. rewrite np_div_zero_pos by exact H.
  simpl. rewrite Rleb_true by lra. f_equal. field. apply PI_neq0.
Qed.

Lemma relative_position_angle_x0_neg (y : flt) :
  fval y < 0 -> relative_position_angle (F 0) y = Some 90.
Proof.
  intro H. unfold relative_position_angle, np_fdiv. rewrite np_div_zero_neg by exact H.
  simpl. rewrite Rleb_true by lra. f_equal. field. apply PI_neq0.
Qed.

Lemma relative_position_angle_negzero_pos (y : flt) :
  0 < fval y -> relative_position_angle NegZero y = Some 90.
Proof.
  intro H. unfold relative_position_angle, np_fdiv.
  rewrite np_div_zero_neg by lra.
  simpl. rewrite Rleb_true by lra. f_equal. field. apply PI_neq0.
Qed.

Lemma relative_position_angle_negzero_neg (y : flt) :
  fval y < 0 -> relative_position_angle NegZero y = Some 270.
Proof.
  intro H. unfold relative_position_angle, np_fdiv.
  rewrite np_div_zero_pos by lra.
  simpl. rewrite Rleb_true by lra. f_equal. field. apply PI_neq0.
Qed.

Lemma fval_fneg (a : flt) : fval (fneg a) = - fval a.
Proof.
  destruct a as [r|]; simpl; [|ring].
  unfold Reqb. destruct (Req_EM_T r 0) as [E|E]; simpl; [subst r; ring | reflexivity].
Qed.

(** C4: with a destination set, [go_to_destination] rotates in place (PD law,
    zero translation) when the relative angle exceeds 4 degrees in absolute
    value and the distance exceeds 5; otherwise, when the distance exceeds 5,
    it drives forward at 20 with zero rotation; and when the distance is at
    most 5 it publishes zero on both channels whatever the angle. *)
Theorem go_to_destination_priority (v : MainView) (dx dy : flt) (px py heading : R) :
  destination v = Some (dx, dy) -> pos v = (px, py, heading) ->
  let x := fsub dx (F px) in
  let y := fsub dy (F py) in
  let relative_angle := option_map (fun a => a - heading) (relative_position_angle x y) in
  let relative_distance := sqrt (fval x ^ 2 + fval y ^ 2) in
  (forall ra, relative_angle = Some ra -> Rabs ra > 4 -> relative_distance > 5 ->
     published go_to_destination v =
       [Forward 0;
        Rotate (1 * ra + 2 * (ra - last_angle v) + 4 / 100 * cumulative_error_angle v)]) /\
  ((forall ra, relative_angle = Some ra -> Rabs ra <= 4) -> relative_distance > 5 ->
     published go_to_destination v = [Forward 20; Rotate 0]) /\
  (relative_distance <= 5 -> published go_to_destination v = [Forward 0; Rotate 0]).
Proof.
  intros Hd Hp x y relative_angle relative_distance.
  assert (Hg : published go_to_destination v =
     match relative_angle with
     | Some ra =>
         if Rltb 4 (Rabs ra) && Rltb 5 relative_distance then
           published (set_movement 0 (1 * ra + 2 * (ra - last_angle v) +
                        4 / 100 * cumulative_error_angle v) ;;;
                      modify (set_angle_hist ra (cumulative_error_angle v + (ra - last_angle v)))) v
         else if Rltb 5 relative_distance then [Forward 20; Rotate 0]
         else [Forward 0; Rotate 0]
     | None => if Rltb 5 relative_distance then [Forward 20; Rotate 0] else [Forward 0; Rotate 0]
     end).
  { unfold go_to_destination. cbv zeta. unfold published at 1. rewrite bind_get, Hd, Hp.
    subst relative_angle relative_distance x y.
    destruct (option_map _ _) as [ra|];
      [destruct (Rltb 4 (Rabs ra) && Rltb 5 _)|]; try destruct (Rltb 5 _); reflexivity. }
  rewrite Hg. split; [|split].
  - intros ra Hra Ha Hr. rewrite Hra, (Rltb_true 4 _ Ha), (Rltb_true 5 _ Hr). simpl.
    rewrite set_movement_then. reflexivity.
  - intros Ha Hr. rewrite (Rltb_true 5 _ Hr).
    destruct relative_angle as [ra|]; [|reflexivity].
    rewrite (Rltb_false 4 (Rabs ra)) by (specialize (Ha ra eq_refl); lra). reflexivity.
  - intro Hr. rewrite (Rltb_false 5 relative_distance) by lra.
    destruct relative_angle as [ra|]; [|reflexivity].
    rewrite Bool.andb_false_r. reflexivity.
Qed.

(** A view in LIDAR mode at the origin, heading 0, with destination (0, 100). *)
Definition waypoint_view : MainView :=
  set_destination_field (Some (F 0, F 100)) (set_mode LIDAR_MODE init_view).

Lemma go_to_destination_priority_witness :
  destination waypoint_view = Some (F 0, F 100) /\ pos waypoint_view = (0, 0, 0) /\
  published go_to_destination waypoint_view =
    [Forward 0; Rotate (1 * 270 + 2 * (270 - 0) + 4 / 100 * 0)].
Proof.
  split; [reflexivity|]. split; [reflexivity|].
  destruct (go_to_destination_priority waypoint_view (F 0) (F 100) 0 0 0 eq_refl eq_refl)
    as [Hrot _].
  apply (Hrot 270).
  - cbn [fsub fval]. replace (0 - 0) with 0 by ring. replace (100 - 0) with 100 by ring.
    rewrite relative_position_angle_x0_pos by (simpl; lra). simpl. f_equal. ring.
  - rewrite Rabs_right; lra.
  - cbn [fsub fval]. replace ((0 - 0) ^ 2 + (100 - 0) ^ 2) with (100 ^ 2) by ring.
    rewrite sqrt_pow2; lra.
Defined.

(** ** The waypoint bearing *)

Lemma bearing_shift_bounds (t : R) :
  -(PI / 2) < t < PI / 2 ->
  90 < (PI + t) * 180 / PI < 270 /\ -90 < t * 180 / PI < 90.
Proof.
  intro Ht. pose proof PI_RGT_0 as HP.
  set (u := t / PI).
  assert (Etu : t = u * PI) by (unfold u; field; lra).
  assert (Hu : -(1/2) < u < 1/2) by (rewrite Etu in Ht; split; nra).
  replace ((PI + t) * 180 / PI) with (180 + 180 * u) by (rewrite Etu; field; lra).
  replace (t * 180 / PI) with (180 * u) by (rewrite Etu; field; lra).
  lra.
Qed.

(** C5 (amended): the bearing is the single-argument arctangent of [y / x]
    split on the sign of the x-delta: for distinct position and destination
    it lies in [[90, 270]] when [x >= 0] (strictly inside when [x > 0]) and in
    [(-90, 90)] when [x < 0]; at [x = 0] the code divides by zero, which numpy
    turns into [+inf] or [-inf] (no fault): for [x = +0.0] this gives 270 for
    [y > 0] and 90 for [y < 0], and for [x = -0.0] (which passes [x >= 0])
    the reverse, 90 for [y > 0] and 270 for [y < 0]. *)
Theorem relative_position_angle_range (x y : flt) :
  (fval x <> 0 \/ fval y <> 0) ->
  exists a, relative_position_angle x y = Some a /\
    (0 <= fval x -> 90 <= a <= 270) /\
    (0 < fval x -> 90 < a < 270) /\
    (fval x < 0 -> -90 < a < 90) /\
    (fval x = 0 ->
     (forall r, np_fdiv y x <> Fin r) /\
     (x = F 0 -> (0 < fval y -> a = 270) /\ (fval y < 0 -> a = 90)) /\
     (x = NegZero -> (0 < fval y -> a = 90) /\ (fval y < 0 -> a = 270))).
Proof.
  intro Hxy.
  assert (Hx0 : forall x', x' = F 0 \/ x' = NegZero -> fval x' = 0 -> fval y <> 0 ->
    exists a, relative_position_angle x' y = Some a /\
      (0 <= fval x' -> 90 <= a <= 270) /\ (0 < fval x' -> 90 < a < 270) /\
      (fval x' < 0 -> -90 < a < 90) /\
      (fval x' = 0 ->
       (forall r, np_fdiv y x' <> Fin r) /\
       (x' = F 0 -> (0 < fval y -> a = 270) /\ (fval y < 0 -> a = 90)) /\
       (x' = NegZero -> (0 < fval y -> a = 90) /\ (fval y < 0 -> a = 270)))).
  { intros x' Hx' Hv Hy. rewrite Hv.
    destruct (Rlt_le_dec 0 (fval y)) as [Hp|Hn];
      [|assert (Hn' : fval y < 0) by (destruct Hn; [assumption | now elim Hy])];
      destruct Hx' as [E|E]; subst x'.
    - exists 270. split; [now apply relative_position_angle_x0_pos|].
      repeat split; try lra; try discriminate.
      intro r. unfold np_fdiv. rewrite np_div_zero_pos by exact Hp. discriminate.
    - exists 90. split; [now apply relative_position_angle_negzero_pos|].
      repeat split; try lra; try discriminate.
      intro r. unfold np_fdiv. rewrite np_div_zero_neg by lra. discriminate.
    - exists 90. split; [now apply relative_position_angle_x0_neg|].
      repeat split; try lra; try discriminate.
      intro r. unfold np_fdiv. rewrite np_div_zero_neg by exact Hn'. discriminate.
    - exists 270. split; [now apply relative_position_angle_negzero_neg|].
      repeat split; try lra; try discriminate.
      intro r. unfold np_fdiv. rewrite np_div_zero_pos by lra. discriminate. }
  destruct x as [r|].
  - destruct (Req_EM_T r 0) as [Er|Er].
    + subst r. apply Hx0; [left; reflexivity | reflexivity |].
      destruct Hxy as [H|H]; [now elim H | exact H].
    + pose proof (atan_bound (fval y / r)) as Hb.
      assert (Hb' : -(PI / 2) < atan (fval y / r) < PI / 2) by lra.
      destruct (bearing_shift_bounds _ Hb') as [Hpos Hneg].
      unfold relative_position_angle, np_fdiv. rewrite np_div_nonzero by exact Er.
      cbn [np_arctan fval].
      destruct (Rle_dec 0 r) as [Hx|Hx].
      * rewrite Rleb_true by exact Hx. eexists. split; [reflexivity|].
        repeat split; intros; simpl in *; try lra; contradiction.
      * rewrite Rleb_false by exact Hx. eexists. split; [reflexivity|].
        repeat split; intros; simpl in *; try lra; contradiction.
  - apply Hx0; [right; reflexivity | reflexivity |].
    destruct Hxy as [H|H]; [now elim H | exact H].
Qed.

(** A left click at (1115, 480) from the constructed view stores the
    destination [(-0.0, -125)]: [pos[0] = -pos[0]] negates [+0.0].  With the
    robot still at the origin the x-delta is [-0.0] and the bearing is 270,
    not 90. *)
Lemma relative_position_angle_range_witness :
  destination (final_view (mouse_input 1 (1115, 480)%Z) init_view) = Some (NegZero, F (-125)) /\
  fsub NegZero (F 0) = NegZero /\ fsub (F (-125)) (F 0) = F (-125) /\
  (exists a, relative_position_angle NegZero (F (-125)) = Some a /\ a = 270).
Proof.
  assert (E0 : Reqb 0 0 = true)
    by (unfold Reqb; destruct (Req_EM_T 0 0); [reflexivity | now elim n]).
  split; [|split; [|split]].
  - unfold final_view, mouse_input, when. cbv zeta. cbn [fst snd Z.eqb].
    replace ((IZR (1115 - 965) / 300 * map_size_meters - map_size_meters / 2) * 100) with 0
      by (unfold map_size_meters; simpl; field).
    replace ((IZR (480 - 405) / 300 * map_size_meters - map_size_meters / 2) * 100) with (-125)
      by (unfold map_size_meters; simpl; field).
    unfold fneg. rewrite E0. cbn [fval].
    unfold map_size_meters.
    rewrite (Rltb_true (- (5 * 100 / 2)) 0) by lra. rewrite (Rltb_true 0 (5 * 100 / 2)) by lra.
    rewrite (Rltb_true (- (5 * 100 / 2)) (-125)) by lra.
    rewrite (Rltb_true (-125) (5 * 100 / 2)) by lra. reflexivity.
  - unfold fsub. rewrite E0. reflexivity.
  - unfold fsub. cbn [fval]. f_equal. ring.
  - assert (Hne : fval (F (-125)) <> 0) by (simpl; intro; lra).
    destruct (relative_position_angle_range NegZero (F (-125)) (or_intror Hne))
      as [a [Ha [_ [_ [_ H0]]]]].
    exists a. split; [exact Ha|]. apply (proj2 (proj2 (H0 eq_refl)) eq_refl). simpl. lra.
Defined.

(** C5 (counterexample): destination one unit ahead and one unit to the side
    of the robot ([x = y = 1]) gets the bearing 225 degrees, outside
    [(-180, 180]]; and a zero x-delta is divided by. *)
Lemma bearing_outside_half_turn :
  relative_position_angle (fsub (F 1) (F 0)) (fsub (F 1) (F 0)) = Some 225 /\ ~ (225 <= 180) /\
  np_fdiv (F 1) (F 0) = PInf.
Proof.
  split; [|split; [lra | apply np_div_zero_pos; simpl; lra]].
  cbn [fsub fval]. replace (1 - 0) with 1 by ring.
  unfold relative_position_angle, np_fdiv. rewrite np_div_nonzero by lra.
  cbn [fval]. replace (1 / 1) with 1 by field. simpl. rewrite atan_1.
  rewrite Rleb_true by lra. f_equal. field. apply PI_neq0.
Qed.

(** ** The range-scan projection *)

(** The dots of a scan: one per sample below 750 mm, in index order. *)
Definition kept_dots (i : nat) (distances : list R) : list (Z * Z) :=
  map (fun kd => scan_dot (Z.of_nat (fst kd)) (snd kd))
      (filter (fun kd => Rltb (snd kd) 750) (combine (seq i (length distances)) distances)).

Lemma nth_error_angles (i : nat) :
  (i < 360)%nat -> nth_error (map Z.of_nat (seq 0 360)) i = Some (Z.of_nat i).
Proof.
  intro H. rewrite nth_error_map, nth_error_seq.
  destruct (Nat.ltb_spec i 360); [reflexivity | lia].
Qed.

Lemma draw_scan_kept (distances : list R) (i : nat) :
  (i + length distances <= 360)%nat ->
  draw_scan (map Z.of_nat (seq 0 360)) i distances = Some (kept_dots i distances).
Proof.
  revert i. induction distances as [|d ds IH]; intros i Hlen; [reflexivity|].
  simpl in Hlen. unfold kept_dots. simpl.
  destruct (Rltb d 750).
  - rewrite nth_error_angles by lia. rewrite IH by lia. reflexivity.
  - rewrite IH by lia. reflexivity.
Qed.

Lemma lidar_scan_callback_outcome (scan : LaserScan) (p : R * R * R) (v : MainView) :
  (length (ranges scan) <= 360)%nat ->
  outcome (lidar_scan_callback scan p) v =
    Some (map (fun z => z * 1000) (ranges scan), map Z.of_nat (seq 0 360),
          kept_dots 0 (map (fun z => z * 1000) (ranges scan))).
Proof.
  intro H. unfold outcome, lidar_scan_callback. destruct p as [[sx sy] sa].
  unfold bind, modify. rewrite draw_scan_kept by (rewrite length_map; simpl; lia).
  reflexivity.
Qed.

Lemma kept_dots_far (i : nat) (distances : list R) :
  (forall d, In d distances -> ~ d < 750) -> kept_dots i distances = [].
Proof.
  revert i. induction distances as [|d ds IH]; intros i H; [reflexivity|].
  unfold kept_dots. simpl. rewrite Rltb_false by (apply H; left; reflexivity).
  apply IH. intros d' Hd'. apply H. right. exact Hd'.
Qed.

(** C8: for a 360-ray scan the callback hands the localization service the
    360 ranges scaled by 1000 (dividing back by 1000 recovers them) with the
    angles 0..359, and draws one dot per sample below 750 mm; when every ray
    reads 4000 mm no dot is drawn while all 360 values still go to the
    localization service. *)
Theorem lidar_scan_mm_and_cloud (scan : LaserScan) (p : R * R * R) (v : MainView) :
  length (ranges scan) = 360%nat ->
  exists scan_mm angles cloud,
    outcome (lidar_scan_callback scan p) v = Some (scan_mm, angles, cloud) /\
    scan_mm = map (fun z => z * 1000) (ranges scan) /\
    length scan_mm = 360%nat /\
    map (fun d => d / 1000) scan_mm = ranges scan /\
    angles = map Z.of_nat (seq 0 360) /\
    cloud = kept_dots 0 scan_mm /\
    ((forall d, In d scan_mm -> d = 4000) -> cloud = []).
Proof.
  intro H. rewrite (lidar_scan_callback_outcome scan p v) by lia.
  do 3 eexists. split; [reflexivity|].
  split; [reflexivity|]. split; [rewrite length_map; exact H|].
  split.
  { rewrite map_map. rewrite <- (map_id (ranges scan)) at 2.
    apply map_ext. intro z. field. }
  split; [reflexivity|]. split; [reflexivity|].
  intro H4000. apply kept_dots_far. intros d Hd. rewrite (H4000 d Hd). lra.
Qed.

(** A 360-ray scan reading 4 m everywhere. *)
Definition far_scan : LaserScan := mk_scan (repeat 4 360) (repeat 1000 360).

Lemma lidar_scan_mm_and_cloud_witness :
  length (ranges far_scan) = 360%nat /\
  exists scan_mm angles,
    outcome (lidar_scan_callback far_scan (0, 0, 0)) init_view = Some (scan_mm, angles, []) /\
    length scan_mm = 360%nat.
Proof.
  assert (Hl : length (ranges far_scan) = 360%nat) by reflexivity.
  split; [exact Hl|].
  destruct (lidar_scan_mm_and_cloud far_scan (0, 0, 0) init_view Hl)
    as (scan_mm & angles & cloud & Ho & Hmm & Hlen & _ & _ & _ & Hfar).
  exists scan_mm, angles. split; [|exact Hlen].
  rewrite Ho, Hfar; [reflexivity|].
  intros d Hd. rewrite Hmm in Hd. unfold far_scan in Hd. cbn [ranges] in Hd.
  apply in_map_iff in Hd.
  destruct Hd as [z [<- Hz]]. apply repeat_spec in Hz. subst z. ring.
Defined.

Lemma kept_dots_cons (i : nat) (d : R) (ds : list R) :
  kept_dots i (d :: ds) =
  if Rltb d 750 then scan_dot (Z.of_nat i) d :: kept_dots (S i) ds else kept_dots (S i) ds.
Proof. unfold kept_dots. simpl. destruct (Rltb d 750); reflexivity. Qed.

(** C6 (amended): the callback never reads the intensities: two scans with
    the same ranges produce the same outcome; every sample goes to the
    localization service scaled to millimetres, and the dots are exactly the
    samples below 750 mm, whatever their intensity. *)
Theorem lidar_projection_ignores_intensity (scan : LaserScan) (p : R * R * R) (v : MainView) :
  (forall scan', ranges scan' = ranges scan ->
     lidar_scan_callback scan' p v = lidar_scan_callback scan p v) /\
  ((length (ranges scan) <= 360)%nat ->
     outcome (lidar_scan_callback scan p) v =
       Some (map (fun z => z * 1000) (ranges scan), map Z.of_nat (seq 0 360),
             kept_dots 0 (map (fun z => z * 1000) (ranges scan)))).
Proof.
  split.
  - intros scan' H. unfold lidar_scan_callback. rewrite H. reflexivity.
  - apply lidar_scan_callback_outcome.
Qed.

Lemma lidar_projection_ignores_intensity_witness :
  ranges (mk_scan (repeat 4 360) (repeat 0 360)) = ranges far_scan /\
  (length (ranges far_scan) <= 360)%nat /\
  lidar_scan_callback (mk_scan (repeat 4 360) (repeat 0 360)) (0, 0, 0) init_view =
  lidar_scan_callback far_scan (0, 0, 0) init_view /\
  outcome (lidar_scan_callback far_scan (0, 0, 0)) init_view =
    Some (map (fun z => z * 1000) (ranges far_scan), map Z.of_nat (seq 0 360),
          kept_dots 0 (map (fun z => z * 1000) (ranges far_scan))).
Proof.
  destruct (lidar_projection_ignores_intensity far_scan (0, 0, 0) init_view) as [H1 H2].
  split; [reflexivity|]. split; [simpl; lia|]. split.
  - apply H1. reflexivity.
  - apply H2. simpl. lia.
Defined.

(** A 360-ray scan whose first ray reads 0.5 m with intensity 0 (every
    intensity is 0) and the others 4 m. *)
Definition low_quality_scan : LaserScan :=
  mk_scan ((1 / 2) :: repeat 4 359) (repeat 0 360).

(** C6 (counterexample): the zero-intensity return at 500 mm is projected:
    the image gets exactly one dot, the same as with intensities 1000. *)
Lemma low_quality_sample_projected :
  Forall (fun q => q = 0) (intensities low_quality_scan) /\
  outcome (lidar_scan_callback low_quality_scan (0, 0, 0)) init_view =
    Some (map (fun z => z * 1000) (ranges low_quality_scan), map Z.of_nat (seq 0 360),
          [scan_dot 0 (1 / 2 * 1000)]) /\
  lidar_scan_callback low_quality_scan (0, 0, 0) init_view =
  lidar_scan_callback (mk_scan ((1 / 2) :: repeat 4 359) (repeat 1000 360)) (0, 0, 0) init_view.
Proof.
  split.
  { apply Forall_forall. intros q Hq. apply repeat_spec in Hq. exact Hq. }
  split; [|reflexivity].
  rewrite lidar_scan_callback_outcome by (simpl; lia).
  do 2 f_equal. cbn [map ranges low_quality_scan].
  rewrite kept_dots_cons, Rltb_true by lra.
  rewrite kept_dots_far; [reflexivity|].
  intros d Hd. apply in_map_iff in Hd. destruct Hd as [z [<- Hz]].
  apply repeat_spec in Hz. subst z. lra.
Qed.

(** ** The destination invariant *)

Definition dest_in_bounds (v : MainView) : Prop :=
  match destination v with
  | Some (x, y) => -250 < fval x < 250 /\ -250 < fval y < 250
  | None => False
  end.

(** A computation that leaves [self.destination] alone. *)
Definition keeps_dest {A} (m : M A) : Prop :=
  forall v, destination (final_view m v) = destination v.

Lemma keeps_dest_bind {A B} (m : M A) (k : A -> M B) :
  keeps_dest m -> (forall a, keeps_dest (k a)) -> keeps_dest (bind m k).
Proof.
  intros Hm Hk v. unfold final_view, bind.
  specialize (Hm v). unfold final_view in Hm.
  destruct (m v) as [[o1 v1] [a|]] eqn:E; simpl in *; [|exact Hm].
  specialize (Hk a v1). unfold final_view in Hk.
  destruct (k a v1) as [[o2 v2] r]. simpl in *. congruence.
Qed.

Lemma keeps_dest_get : keeps_dest get.
Proof. intro v. reflexivity. Qed.

Lemma keeps_dest_ret {A} (a : A) : keeps_dest (ret a).
Proof. intro v. reflexivity. Qed.

Lemma keeps_dest_put (c : cmd) : keeps_dest (put c).
Proof. intro v. reflexivity. Qed.

Lemma keeps_dest_raise {A} : keeps_dest (@raise A).
Proof. intro v. reflexivity. Qed.

Lemma keeps_dest_modify (f : MainView -> MainView) :
  (forall v, destination (f v) = destination v) -> keeps_dest (modify f).
Proof. intros H v. apply H. Qed.

Ltac keeps_dest_tac :=
  repeat first
    [ apply keeps_dest_bind; intros
    | apply keeps_dest_get | apply keeps_dest_ret | apply keeps_dest_put
    | apply keeps_dest_raise
    | apply keeps_dest_modify; intro; reflexivity
    | progress unfold when, set_movement, manual_put, dispatch_state
    | match goal with
      | |- keeps_dest (match ?x with _ => _ end) => destruct x
      | |- keeps_dest (if ?b then _ else _) => destruct b
      end ].

Lemma keeps_dest_go_to_destination : keeps_dest go_to_destination.
Proof. unfold go_to_destination. cbv zeta. keeps_dest_tac. Qed.

Lemma keeps_dest_qr_code_branch : keeps_dest qr_code_branch.
Proof. unfold qr_code_branch. cbv zeta. keeps_dest_tac. Qed.

Lemma keeps_dest_update : keeps_dest update.
Proof.
  unfold update. apply keeps_dest_bind; [apply keeps_dest_get|]. intro v.
  destruct (Z.eqb _ _); [apply keeps_dest_qr_code_branch|].
  destruct (Z.eqb _ _); [apply keeps_dest_go_to_destination | apply keeps_dest_ret].
Qed.

Lemma keeps_dest_lidar (s : LaserScan) (p : R * R * R) : keeps_dest (lidar_scan_callback s p).
Proof.
  unfold lidar_scan_callback. destruct p as [[sx sy] sa]. keeps_dest_tac.
Qed.

Lemma mouse_input_in_bounds (b : Z) (e : Z * Z) (v : MainView) :
  dest_in_bounds v -> dest_in_bounds (final_view (mouse_input b e) v).
Proof.
  intro H. unfold mouse_input, when, final_view.
  destruct (Z.eqb b 1); [|exact H]. cbv zeta.
  set (p0 := fneg (F ((IZR (fst e - 965) / 300 * map_size_meters - map_size_meters / 2) * 100))).
  set (p1 := (IZR (snd e - 405) / 300 * map_size_meters - map_size_meters / 2) * 100).
  destruct (Rltb _ (fval p0)) eqn:E1; [|exact H]. destruct (Rltb (fval p0) _) eqn:E2; [|exact H].
  destruct (Rltb _ p1) eqn:E3; [|exact H]. destruct (Rltb p1 _) eqn:E4; [|exact H].
  simpl. unfold dest_in_bounds. simpl.
  apply Rltb_spec in E1, E2, E3, E4. unfold map_size_meters in *. lra.
Qed.

Lemma run_op_in_bounds (o : op) (v : MainView) :
  (forall d, o <> OpSetDestination d) ->
  dest_in_bounds v -> dest_in_bounds (final_view (run_op o) v).
Proof.
  intros Ho H.
  assert (Hk : forall m : M unit, keeps_dest m -> dest_in_bounds (final_view m v)).
  { intros m Hm. unfold dest_in_bounds. rewrite Hm. exact H. }
  destruct o; cbn [run_op];
    first
      [ apply mouse_input_in_bounds, H
      | exfalso; exact (Ho _ eq_refl)
      | apply Hk;
        first
          [ intro w; reflexivity
          | apply keeps_dest_update
          | apply keeps_dest_go_to_destination
          | apply keeps_dest_bind; [apply keeps_dest_lidar | intro; apply keeps_dest_ret]
          | unfold set_movement, turtle_up, turtle_down, turtle_left, turtle_right,
              turtle_standby_up, turtle_standby_down, turtle_standby_left,
              turtle_standby_right, switch_to_manual, switch_to_qrcode, switch_to_lidar;
            keeps_dest_tac; fail ] ].
Qed.

(** C10 (amended): the constructed view's destination is the in-bounds point
    (0, 0), and every sequence of operations other than [set_destination]
    (sensor callbacks, [update], [go_to_destination], [set_movement], the
    manual handlers, the mode switches and [mouse_input]) keeps the
    destination present and strictly inside (-250, 250) on both axes. *)
Theorem destination_invariant (os : list op) (v : MainView) :
  dest_in_bounds init_view /\
  (dest_in_bounds v -> (forall d, ~ In (OpSetDestination d) os) ->
   dest_in_bounds (run_ops os v)).
Proof.
  split; [unfold dest_in_bounds; simpl; lra|].
  revert v. induction os as [|o os IH]; intros v H Hos; [exact H|].
  simpl. apply IH.
  - apply run_op_in_bounds; [|exact H].
    intros d E. subst o. apply (Hos d). left. reflexivity.
  - intros d Hd. apply (Hos d). right. exact Hd.
Qed.

Lemma destination_invariant_witness :
  dest_in_bounds (run_ops [OpSwitchLidar; OpMouseInput 1%Z (1100%Z, 500%Z); OpUpdate] init_view).
Proof.
  destruct (destination_invariant [OpSwitchLidar; OpMouseInput 1%Z (1100%Z, 500%Z); OpUpdate]
              init_view) as [H0 H].
  apply H; [exact H0|].
  intros d Hd. simpl in Hd. destruct Hd as [E|[E|[E|[]]]]; discriminate.
Defined.

(** C10 (counterexample): [set_destination] clears the destination, and
    [go_to_destination] then takes its "no destination" branch and publishes
    zero velocity. *)
Lemma set_destination_clears :
  let v := run_ops [OpSetDestination None] init_view in
  destination v = None /\ ~ dest_in_bounds v /\
  published go_to_destination v = [Forward 0; Rotate 0].
Proof.
  cbv zeta. split; [reflexivity|]. split; [unfold dest_in_bounds; simpl; auto|].
  reflexivity.
Qed.

(** ** One operation as a step on the view

    Every operation changes the view in one of a few shapes; the invariants
    below are proved once over this relation. *)

Inductive view_step (v : MainView) : MainView -> Prop :=
| vs_same : view_step v v
| vs_mode (m : Z) :
    m = MANUAL_MODE \/ m = QR_CODE_MODE \/ m = LIDAR_MODE -> view_step v (set_mode m v)
| vs_frame (f : frame) : view_step v (final_view (camera_image_callback f) v)
| vs_pos (p : R * R * R) : view_step v (set_pos p v)
| vs_angle (ra : R) :
    view_step v (set_angle_hist ra (cumulative_error_angle v + (ra - last_angle v)) v)
| vs_qr (pw pl : pid_hist) : view_step v (set_qr_ctrl pw pl (state v) v)
| vs_dest (d : option fpoint) : view_step v (set_destination_field d v).

Lemma go_to_destination_final (v : MainView) :
  final_view go_to_destination v = v \/
  exists ra, final_view go_to_destination v =
             set_angle_hist ra (cumulative_error_angle v + (ra - last_angle v)) v.
Proof.
  unfold final_view, go_to_destination. cbv zeta. rewrite bind_get.
  destruct (destination v) as [[dx dy]|]; [|left; reflexivity].
  destruct (pos v) as [[px py] heading].
  destruct (option_map _ _) as [ra|].
  - destruct (_ && _).
    + right. exists ra. reflexivity.
    + left. destruct (Rltb _ _); reflexivity.
  - left. destruct (Rltb _ _); reflexivity.
Qed.

Lemma qr_code_branch_final (v : MainView) :
  final_view qr_code_branch v = v \/
  exists pw pl, final_view qr_code_branch v = set_qr_ctrl pw pl (state v) v.
Proof.
  unfold final_view, qr_code_branch. rewrite bind_get. unfold when.
  destruct (negb _); [|left; reflexivity].
  destruct (camera_image v) as [w|] eqn:Ec.
  - right. do 2 eexists. unfold bind, put, modify, dispatch_state. simpl.
    destruct (_ || _); [reflexivity|]. destruct (_ || _); reflexivity.
  - left. unfold bind, put. simpl. reflexivity.
Qed.

Lemma manual_put_final (c : cmd) (v : MainView) : final_view (manual_put c) v = v.
Proof.
  unfold final_view, manual_put. rewrite bind_get. unfold when.
  destruct (Z.eqb _ _); reflexivity.
Qed.

Lemma run_op_step (o : op) (v : MainView) : view_step v (final_view (run_op o) v).
Proof.
  destruct o; cbn [run_op].
  - apply vs_frame.
  - unfold final_view, lidar_scan_callback. destruct slam_pose as [[sx sy] sa].
    unfold bind, modify. destruct (draw_scan _ _ _); simpl; apply vs_pos.
  - unfold update. unfold final_view at 1. rewrite bind_get.
    destruct (Z.eqb _ _).
    + destruct (qr_code_branch_final v) as [E|[pw [pl E]]]; unfold final_view in E;
        rewrite E; constructor.
    + destruct (Z.eqb _ _); [|apply vs_same].
      destruct (go_to_destination_final v) as [E|[ra E]]; unfold final_view in E;
        rewrite E; constructor.
  - destruct (go_to_destination_final v) as [E|[ra E]]; rewrite E; constructor.
  - apply vs_same.
  - unfold turtle_up. rewrite manual_put_final. apply vs_same.
  - unfold turtle_down. rewrite manual_put_final. apply vs_same.
  - unfold turtle_left. rewrite manual_put_final. apply vs_same.
  - unfold turtle_right. rewrite manual_put_final. apply vs_same.
  - unfold turtle_standby_up. rewrite manual_put_final. apply vs_same.
  - unfold turtle_standby_down. rewrite manual_put_final. apply vs_same.
  - unfold turtle_standby_left. rewrite manual_put_final. apply vs_same.
  - unfold turtle_standby_right. rewrite manual_put_final. apply vs_same.
  - apply vs_mode. auto.
  - apply vs_mode. auto.
  - apply vs_mode. auto.
  - unfold final_view, mouse_input, when. destruct (Z.eqb _ 1); [|apply vs_same].
    destruct (_ && _); [|apply vs_same]. destruct (_ && _); [|apply vs_same]. apply vs_dest.
  - apply vs_dest.
Qed.

Lemma run_ops_app (os1 os2 : list op) (v : MainView) :
  run_ops (os1 ++ os2) v = run_ops os2 (run_ops os1 v).
Proof. revert v. induction os1 as [|o os IH]; intro v; [reflexivity|]. apply IH. Qed.

(** An invariant of single steps holds after any sequence of operations. *)
Lemma run_ops_preserves (P : MainView -> Prop) :
  (forall v v', P v -> view_step v v' -> P v') ->
  forall os v, P v -> P (run_ops os v).
Proof.
  intros HP os. induction os as [|o os IH]; intros v Hv; [exact Hv|].
  simpl. apply IH. apply (HP v); [exact Hv | apply run_op_step].
Qed.

(** ** Invariants over sequences of operations *)

Definition valid_states : list Z :=
  [STATE_LOST; STATE_ALIGN_RIGHT; STATE_ALIGN_LEFT; STATE_FORWARD; STATE_BACKWARD; STATE_FINISH].

Lemma update_state_in_range (image_shape : Z * Z) (oq : option quad) :
  In (update_state image_shape oq) valid_states.
Proof.
  unfold update_state, valid_states. destruct oq as [q|]; [|left; reflexivity].
  case_Rltb; [| |destruct (ext_gt _ _); [|destruct (ext_lt _ _)]];
    repeat (first [left; reflexivity | right]).
Qed.

Definition valid_view (v : MainView) : Prop :=
  (mode v = MANUAL_MODE \/ mode v = QR_CODE_MODE \/ mode v = LIDAR_MODE) /\
  In (state v) valid_states /\
  (last_state v = (-1)%Z \/ In (last_state v) valid_states).

(** X: from construction, whatever operations run, the mode is one of the
    three modes, the guidance state one of the six states, and [last_state]
    either its initial [-1] or one of the six states. *)
Theorem view_fields_in_range (os : list op) : valid_view (run_ops os init_view).
Proof.
  apply run_ops_preserves.
  - intros v v' [Hm [Hs Hl]] Hstep. destruct Hstep; unfold valid_view; simpl.
    + auto.
    + auto.
    + split; [exact Hm|]. split; [apply update_state_in_range | exact Hl].
    + auto.
    + auto.
    + auto.
    + auto.
  - unfold valid_view, valid_states. simpl. auto 10.
Qed.

(** X: [go_to_destination] adds [relative_angle - last_angle] to
    [cumulative_error_angle] exactly when it sets [last_angle] to
    [relative_angle], so no operation changes their difference; from
    construction the "integral" term therefore always equals [last_angle]. *)
Theorem angle_history_telescopes (os : list op) (v : MainView) :
  cumulative_error_angle (run_ops os v) - last_angle (run_ops os v) =
  cumulative_error_angle v - last_angle v /\
  cumulative_error_angle (run_ops os init_view) = last_angle (run_ops os init_view).
Proof.
  assert (Hg : forall w, cumulative_error_angle (run_ops os w) - last_angle (run_ops os w) =
                         cumulative_error_angle w - last_angle w).
  { intro w.
    apply (run_ops_preserves
             (fun u => cumulative_error_angle u - last_angle u =
                       cumulative_error_angle w - last_angle w)); [|reflexivity].
    intros u u' Hu Hstep. rewrite <- Hu. destruct Hstep; simpl; try reflexivity. ring. }
  split; [apply Hg|]. pose proof (Hg init_view) as H. simpl in H. lra.
Qed.

(** ** Manual driving: key presses and releases *)

Lemma manual_put_run (c : cmd) (v : MainView) :
  manual_put c v = ((if Z.eqb (mode v) MANUAL_MODE then [c] else []), v, Some tt).
Proof.
  unfold manual_put. rewrite bind_get. unfold when. destruct (Z.eqb _ _); reflexivity.
Qed.

Lemma bind_manual_put {B} (c : cmd) (k : M B) (v : MainView) :
  (manual_put c ;;; k) v =
  let '(o, w, r) := k v in ((if Z.eqb (mode v) MANUAL_MODE then [c] else []) ++ o, w, r).
Proof. unfold bind at 1. rewrite manual_put_run. reflexivity. Qed.

Lemma bind_modify {B} (f : MainView -> MainView) (k : M B) (v : MainView) :
  (modify f ;;; k) v = k (f v).
Proof. unfold bind, modify. destruct (k (f v)) as [[o w] r]. reflexivity. Qed.

(** The four arrow keys: handler on press, handler on release, and the
    commands they put. *)
Definition key_bindings : list (M unit * M unit * cmd * cmd) :=
  [(turtle_up, turtle_standby_up, Forward 20, Forward 0);
   (turtle_down, turtle_standby_down, Forward (-20), Forward 0);
   (turtle_left, turtle_standby_left, Rotate 100, Rotate 0);
   (turtle_right, turtle_standby_right, Rotate (-100), Rotate 0)].

(** X: in MANUAL mode a key press followed by its release puts the key's
    command and then the zero command on the same channel (nothing in any
    other mode); but when the mode is switched away from MANUAL between the
    press and the release, the release is silenced and the non-zero command
    is the last one sent. *)
Theorem manual_press_release (press release : M unit) (on off : cmd) (v : MainView) :
  In (press, release, on, off) key_bindings ->
  published (press ;;; release) v =
    (if Z.eqb (mode v) MANUAL_MODE then [on; off] else []) /\
  (mode v = MANUAL_MODE ->
   published (press ;;; switch_to_qrcode ;;; release) v = [on] /\
   published (press ;;; switch_to_lidar ;;; release) v = [on]).
Proof.
  intro Hin.
  assert (Hgen : forall c1 c2,
    published (manual_put c1 ;;; manual_put c2) v =
      (if Z.eqb (mode v) MANUAL_MODE then [c1; c2] else []) /\
    (mode v = MANUAL_MODE ->
     published (manual_put c1 ;;; switch_to_qrcode ;;; manual_put c2) v = [c1] /\
     published (manual_put c1 ;;; switch_to_lidar ;;; manual_put c2) v = [c1])).
  { intros c1 c2. unfold published. split.
    - rewrite bind_manual_put, manual_put_run. simpl. destruct (Z.eqb _ _); reflexivity.
    - intro Hm. unfold switch_to_qrcode, switch_to_lidar.
      rewrite !bind_manual_put, !bind_modify, !manual_put_run. simpl.
      rewrite Hm. simpl. split; reflexivity. }
  unfold key_bindings in Hin.
  destruct Hin as [E|[E|[E|[E|[]]]]]; injection E as <- <- <- <-; apply Hgen.
Qed.

Lemma manual_press_release_witness :
  published (turtle_up ;;; turtle_standby_up) init_view = [Forward 20; Forward 0] /\
  published (turtle_up ;;; switch_to_qrcode ;;; turtle_standby_up) init_view = [Forward 20].
Proof.
  destruct (manual_press_release turtle_up turtle_standby_up (Forward 20) (Forward 0)
              init_view (or_introl eq_refl)) as [H1 H2].
  split; [exact H1|]. exact (proj1 (H2 eq_refl)).
Defined.

(** ** Mouse clicks on the map display *)

Lemma click_axis_in_bounds (z : Z) (s : R) :
  s = 1 \/ s = -1 ->
  (Rltb (- (map_size_meters * 100 / 2)) (s * ((IZR z / 300 * map_size_meters - map_size_meters / 2) * 100)) &&
   Rltb (s * ((IZR z / 300 * map_size_meters - map_size_meters / 2) * 100)) (map_size_meters * 100 / 2))
  = ((0 <? z) && (z <? 300))%Z.
Proof.
  intro Hs. unfold map_size_meters.
  assert (Hz : forall a b : Z, (a < b)%Z <-> IZR a < IZR b) by (split; [apply IZR_lt | apply lt_IZR]).
  destruct (Z.ltb_spec 0 z) as [H0|H0]; destruct (Z.ltb_spec z 300) as [H3|H3];
    apply Hz in H0 || (apply Z.le_ngt in H0; rewrite Hz in H0);
    apply Hz in H3 || (apply Z.le_ngt in H3; rewrite Hz in H3);
    destruct Hs; subst s; try (exfalso; lra);
    repeat rewrite Rltb_true by lra; repeat rewrite Rltb_false by lra; reflexivity.
Qed.

(** X: [mouse_input] publishes nothing, and it changes the view only on a
    left click strictly inside the 300x300 map display at (965, 405): then the
    destination becomes the click mapped to centimetres, with the first axis
    negated ([-0.0] for a click on the display's middle column). *)
Theorem mouse_input_click_region (button ex ey : Z) (v : MainView) :
  published (mouse_input button (ex, ey)) v = [] /\
  (button = 1%Z /\ (965 < ex < 1265)%Z /\ (405 < ey < 705)%Z ->
   final_view (mouse_input button (ex, ey)) v =
     set_destination_field
       (Some (fneg (F ((IZR (ex - 965) / 300 * 5 - 5 / 2) * 100)),
              F ((IZR (ey - 405) / 300 * 5 - 5 / 2) * 100))) v) /\
  (~ (button = 1%Z /\ (965 < ex < 1265)%Z /\ (405 < ey < 705)%Z) ->
   final_view (mouse_input button (ex, ey)) v = v).
Proof.
  pose proof (click_axis_in_bounds (ex - 965) (-1) (or_intror eq_refl)) as Hx.
  pose proof (click_axis_in_bounds (ey - 405) 1 (or_introl eq_refl)) as Hy.
  replace (-1 * ((IZR (ex - 965) / 300 * map_size_meters - map_size_meters / 2) * 100))
    with (- ((IZR (ex - 965) / 300 * map_size_meters - map_size_meters / 2) * 100)) in Hx by ring.
  replace (1 * ((IZR (ey - 405) / 300 * map_size_meters - map_size_meters / 2) * 100))
    with ((IZR (ey - 405) / 300 * map_size_meters - map_size_meters / 2) * 100) in Hy by ring.
  unfold published, final_view, mouse_input, when. cbv zeta. cbn [fst snd].
  rewrite fval_fneg. cbn [fval]. rewrite Hx, Hy.
  destruct (Z.eqb_spec button 1) as [Hb|Hb];
    [|split; [reflexivity|]; split; intro H; [exfalso; tauto | reflexivity]].
  destruct (Z.ltb_spec 0 (ex - 965)), (Z.ltb_spec (ex - 965) 300),
    (Z.ltb_spec 0 (ey - 405)), (Z.ltb_spec (ey - 405) 300); simpl;
    (split; [reflexivity|]); split; intro Hc;
    first [ reflexivity | exfalso; lia | unfold map_size_meters; reflexivity
          | exfalso; apply Hc; repeat split; lia ].
Qed.

Lemma mouse_input_click_region_witness :
  destination (final_view (mouse_input 1 (1115, 555)%Z) init_view) =
    Some (fneg (F ((IZR (1115 - 965) / 300 * 5 - 5 / 2) * 100)),
          F ((IZR (555 - 405) / 300 * 5 - 5 / 2) * 100)).
Proof.
  destruct (mouse_input_click_region 1 1115 555 init_view) as [_ [H _]].
  rewrite H; [reflexivity|]. split; [reflexivity|]. split; lia.
Defined.

(** ** The marker-following branch over several cycles *)

(** X: in QR-code mode with a camera frame present, a second [update] right
    after the first publishes nothing and changes nothing; switching to
    LIDAR mode and back does not reset [last_state], so the branch stays
    silent after the return too. *)
Theorem qr_update_twice_silent (v : MainView) (width : Z) :
  mode v = QR_CODE_MODE -> camera_image v = Some width ->
  let v1 := final_view update v in
  update v1 = ([], v1, Some tt) /\
  published (switch_to_lidar ;;; switch_to_qrcode ;;; update) v1 = [].
Proof.
  intros Hm Hc v1.
  assert (H1 : mode v1 = QR_CODE_MODE /\ state v1 = last_state v1).
  { subst v1. unfold final_view at 1 2 3. rewrite (update_qr_mode _ Hm).
    destruct (Z.eq_dec (state v) (last_state v)) as [E|E].
    - rewrite (qr_code_branch_same_state _ E). simpl. auto.
    - destruct (qr_code_branch_changed v width E Hc) as (vw & vl & _ & Hl & Hs & Hmo & _).
      unfold final_view in Hl, Hs, Hmo. rewrite Hl, Hs, Hmo. auto. }
  destruct H1 as [Hm1 Hs1].
  split.
  - rewrite (update_qr_mode _ Hm1). apply qr_code_branch_same_state, Hs1.
  - unfold published, switch_to_lidar, switch_to_qrcode. rewrite !bind_modify.
    rewrite (update_qr_mode (set_mode QR_CODE_MODE (set_mode LIDAR_MODE v1)) eq_refl).
    rewrite qr_code_branch_same_state; [reflexivity|]. exact Hs1.
Qed.

Definition qr_view : MainView :=
  final_view (camera_image_callback (mk_frame (640, 480)%Z None 0))
             (final_view switch_to_qrcode init_view).

Lemma qr_update_twice_silent_witness :
  mode qr_view = QR_CODE_MODE /\ camera_image qr_view = Some 640%Z /\
  update (final_view update qr_view) = ([], final_view update qr_view, Some tt).
Proof.
  split; [reflexivity|]. split; [reflexivity|].
  exact (proj1 (qr_update_twice_silent qr_view 640 eq_refl eq_refl)).
Defined.

(** X: the marker-following branch never publishes a translation above 20:
    every Forward command it puts is at most 20 (the [np.min] clamp; the
    settle command is 0). *)
Theorem qr_forward_clamped (v : MainView) (c : cmd) :
  In c (published qr_code_branch v) ->
  match c with Forward x => x <= 20 | Rotate _ => True end.
Proof.
  unfold published, qr_code_branch. rewrite bind_get. unfold when.
  destruct (negb _); [|simpl; tauto].
  destruct (camera_image v) as [w|].
  - unfold bind, put, modify, dispatch_state. simpl.
    destruct (_ || _); [|destruct (_ || _)]; simpl;
      intros [<-|[<-|[<-|[]]]] || intros [<-|[<-|[]]]; try lra; auto; apply Rmin_r.
  - unfold bind, put, raise. simpl. intros [<-|[<-|[]]]; lra || auto.
Qed.

Lemma qr_forward_clamped_witness :
  In (Forward 0) (published qr_code_branch qr_view) /\ 0 <= 20.
Proof.
  assert (H : In (Forward 0) (published qr_code_branch qr_view)) by (simpl; auto).
  split; [exact H|]. exact (qr_forward_clamped qr_view (Forward 0) H).
Defined.

(** X: when a frame arrives without a marker, the guidance state becomes
    LOST while the last marker's centre and distance are kept; the next
    QR-code [update] then publishes only the zero settle pair (no rotation or
    translation) if the previous state was not LOST, and nothing if it was. *)
Theorem marker_lost_then_update (v : MainView) (shape : Z * Z) (tvec_norm : R) :
  mode v = QR_CODE_MODE ->
  let v1 := final_view (camera_image_callback (mk_frame shape None tvec_norm)) v in
  state v1 = STATE_LOST /\
  qr_code_center_x v1 = qr_code_center_x v /\
  distance_to_qr_code v1 = distance_to_qr_code v /\
  published update v1 =
    (if Z.eqb (last_state v) STATE_LOST then [] else [Forward 0; Rotate 0]).
Proof.
  intros Hm v1.
  assert (Hm1 : mode v1 = QR_CODE_MODE) by exact Hm.
  assert (Hs1 : state v1 = STATE_LOST) by reflexivity.
  assert (Hl1 : last_state v1 = last_state v) by reflexivity.
  assert (Hc1 : camera_image v1 = Some (fst shape)) by reflexivity.
  split; [exact Hs1|]. split; [reflexivity|]. split; [reflexivity|].
  unfold published. rewrite (update_qr_mode _ Hm1).
  destruct (Z.eqb_spec (last_state v) STATE_LOST) as [E|E].
  - rewrite qr_code_branch_same_state; [reflexivity|]. congruence.
  - destruct (qr_code_branch_changed v1 (fst shape)) as (vw & vl & Hp & _);
      [congruence | exact Hc1 |].
    unfold published in Hp. rewrite Hp, Hs1. reflexivity.
Qed.

Lemma marker_lost_then_update_witness :
  published update
    (final_view (camera_image_callback (mk_frame (640, 480)%Z None 0))
                (final_view switch_to_qrcode init_view)) = [Forward 0; Rotate 0].
Proof.
  pose proof (marker_lost_then_update (final_view switch_to_qrcode init_view)
                (640, 480)%Z 0 eq_refl) as H.
  cbv zeta in H. destruct H as (_ & _ & _ & H). rewrite H. reflexivity.
Defined.

(** ** The waypoint controller's effects *)

(** X: every call of [go_to_destination] completes without an exception and
    publishes exactly one Forward command followed by one Rotate command; it
    never changes the pose, the destination, the mode or the guidance
    fields. *)
Theorem go_to_destination_publishes_pair (v : MainView) :
  (exists l a, published go_to_destination v = [Forward l; Rotate a]) /\
  outcome go_to_destination v = Some tt /\
  pos (final_view go_to_destination v) = pos v /\
  destination (final_view go_to_destination v) = destination v /\
  mode (final_view go_to_destination v) = mode v /\
  state (final_view go_to_destination v) = state v /\
  last_state (final_view go_to_destination v) = last_state v.
Proof.
  split; [|split].
  - unfold published, go_to_destination. cbv zeta. rewrite bind_get.
    destruct (destination v) as [[dx dy]|]; [|do 2 eexists; reflexivity].
    destruct (pos v) as [[px py] heading].
    destruct (option_map _ _) as [ra|];
      [destruct (_ && _); [|destruct (Rltb _ _)] | destruct (Rltb _ _)];
      do 2 eexists; reflexivity.
  - unfold outcome, go_to_destination. cbv zeta. rewrite bind_get.
    destruct (destination v) as [[dx dy]|]; [|reflexivity].
    destruct (pos v) as [[px py] heading].
    destruct (option_map _ _) as [ra|];
      [destruct (_ && _); [|destruct (Rltb _ _)] | destruct (Rltb _ _)]; reflexivity.
  - destruct (go_to_destination_final v) as [E|[ra E]]; rewrite E;
      repeat split; reflexivity.
Qed.

(** ** Scans with more than 360 rays *)

Lemma nth_error_angles_out (i : nat) :
  (360 <= i)%nat -> nth_error (map Z.of_nat (seq 0 360)) i = None.
Proof.
  intro H. rewrite nth_error_map, nth_error_seq.
  destruct (Nat.ltb_spec i 360); [lia | reflexivity].
Qed.

Lemma draw_scan_fails (ds : list R) (i : nat) :
  draw_scan (map Z.of_nat (seq 0 360)) i ds = None <->
  exists k d, nth_error ds k = Some d /\ (360 <= i + k)%nat /\ d < 750.
Proof.
  revert i. induction ds as [|d ds IH]; intro i.
  - split; [discriminate|]. intros (k & d & Hk & _). destruct k; discriminate.
  - cbn [draw_scan]. destruct (Rltb d 750) eqn:Ed.
    + apply Rltb_spec in Ed.
      destruct (Nat.lt_ge_cases i 360) as [Hi|Hi].
      * rewrite nth_error_angles by exact Hi.
        destruct (draw_scan _ (S i) ds) eqn:Er.
        -- split; [discriminate|]. intros (k & d' & Hk & Hik & Hd').
           destruct k as [|k]; [simpl in Hk; lia|].
           assert (Hn : draw_scan (map Z.of_nat (seq 0 360)) (S i) ds = None)
             by (apply IH; exists k, d'; split; [exact Hk|]; split; [lia | exact Hd']).
           congruence.
        -- split; [|reflexivity]. intros _.
           destruct (proj1 (IH (S i)) Er) as (k & d' & Hk & Hik & Hd').
           exists (S k), d'. split; [exact Hk|]. split; [lia | exact Hd'].
      * rewrite nth_error_angles_out by exact Hi. split; [|reflexivity].
        intros _. exists 0%nat, d. split; [reflexivity|]. split; [lia | exact Ed].
    + rewrite IH. split.
      * intros (k & d' & Hk & Hik & Hd'). exists (S k), d'.
        split; [exact Hk|]. split; [lia | exact Hd'].
      * intros (k & d' & Hk & Hik & Hd'). destruct k as [|k].
        -- simpl in Hk. injection Hk as <-. apply Rltb_spec in Hd'. congruence.
        -- exists k, d'. split; [exact Hk|]. split; [lia | exact Hd'].
Qed.

(** X: the range-scan callback raises IndexError (on [angles[i]]) exactly
    when some ray at index 360 or beyond reads below 0.75 m; the pose taken
    from the localization service is stored, converted to centimetres and
    centred on the map, whether or not the callback then raises. *)
Theorem lidar_index_error (scan : LaserScan) (sx sy sa : R) (v : MainView) :
  (outcome (lidar_scan_callback scan (sx, sy, sa)) v = None <->
   exists k z, nth_error (ranges scan) k = Some z /\ (360 <= k)%nat /\ z * 1000 < 750) /\
  pos (final_view (lidar_scan_callback scan (sx, sy, sa)) v) =
    (sx / 10 - map_size_meters * 100 / 2, sy / 10 - map_size_meters * 100 / 2, sa).
Proof.
  split.
  - unfold outcome, lidar_scan_callback, bind, modify.
    pose proof (draw_scan_fails (map (fun z => z * 1000) (ranges scan)) 0) as H.
    destruct (draw_scan _ _ _) eqn:E; simpl.
    + split; [discriminate|]. intros (k & z & Hk & Hk3 & Hz).
      assert (Hn : @Some (list (Z * Z)) l = None).
      { apply H. exists k, (z * 1000).
        rewrite nth_error_map, Hk. split; [reflexivity|]. split; [lia | exact Hz]. }
      discriminate.
    + split; [intros _|reflexivity].
      destruct (proj1 H eq_refl) as (k & d & Hk & Hk3 & Hd).
      rewrite nth_error_map in Hk.
      destruct (nth_error (ranges scan) k) as [z|] eqn:Ez; [|discriminate].
      injection Hk as <-. exists k, z. split; [exact Ez|]. split; [lia | exact Hd].
  - unfold final_view, lidar_scan_callback, bind, modify.
    destruct (draw_scan _ _ _); reflexivity.
Qed.

(** A 361-ray scan whose extra ray reads 0.5 m. *)
Definition long_scan : LaserScan := mk_scan (repeat 4 360 ++ [1 / 2]) (repeat 0 361).

Lemma lidar_index_error_witness :
  outcome (lidar_scan_callback long_scan (0, 0, 0)) init_view = None.
Proof.
  apply (proj1 (lidar_index_error long_scan 0 0 0 init_view)).
  exists 360%nat, (1 / 2). split; [reflexivity|]. split; [lia | lra].
Defined.

(** ** How the distance estimate reacts to moving or resizing the marker *)

Definition map_quad (f : point -> point) (q : quad) : quad :=
  mk_quad (f (c0 q)) (f (c1 q)) (f (c2 q)) (f (c3 q)).

(** [quad + (tx, ty)] and [k * quad] on the detected corner array. *)
Definition translate_quad (tx ty : R) (q : quad) : quad :=
  map_quad (fun p => (fst p + tx, snd p + ty)) q.

Definition scale_quad (k : R) (q : quad) : quad :=
  map_quad (fun p => (k * fst p, k * snd p)) q.

Lemma distance_btw_translate (tx ty : R) (x y : point) :
  distance_btw (fst x + tx, snd x + ty) (fst y + tx, snd y + ty) = distance_btw x y.
Proof. unfold distance_btw. simpl. f_equal. ring. Qed.

Lemma distance_btw_scale (k : R) (x y : point) :
  0 <= k -> distance_btw (k * fst x, k * snd x) (k * fst y, k * snd y) = k * distance_btw x y.
Proof.
  intro Hk. unfold distance_btw. simpl.
  replace ((k * fst x - k * fst y) * (k * fst x - k * fst y) +
           (k * snd x - k * snd y) * (k * snd x - k * snd y))
    with ((k * k) * ((fst x - fst y) * (fst x - fst y) + (snd x - snd y) * (snd x - snd y)))
    by ring.
  rewrite sqrt_mult_alt by nra. rewrite sqrt_square by exact Hk. reflexivity.
Qed.

(** X: the distance estimate depends only on the marker's apparent size:
    shifting every detected corner by the same offset leaves it unchanged,
    a shift along the first coordinate leaves the guidance state unchanged
    (the position test reads only the second coordinate), and scaling the
    corners by [k > 0] divides a finite estimate by [k] and keeps the
    [+inf] of a collapsed marker. *)
Theorem distance_estimate_size_only (q : quad) :
  (forall tx ty, calculate_distance_from_qr_code (translate_quad tx ty q) =
                 calculate_distance_from_qr_code q) /\
  (forall shape tx, update_state shape (Some (translate_quad tx 0 q)) =
                    update_state shape (Some q)) /\
  (forall k, 0 < k ->
   calculate_distance_from_qr_code (scale_quad k q) =
   match calculate_distance_from_qr_code q with
   | Fin d => Fin (d / k)
   | e => e
   end).
Proof.
  assert (Ht : forall tx ty, calculate_distance_from_qr_code (translate_quad tx ty q) =
                             calculate_distance_from_qr_code q).
  { intros tx ty. unfold calculate_distance_from_qr_code.
    rewrite !edge_lengths_mean. unfold translate_quad, map_quad. simpl.
    rewrite !distance_btw_translate. reflexivity. }
  split; [exact Ht|]. split.
  - intros shape tx. unfold update_state. rewrite Ht.
    replace (quad_position (translate_quad tx 0 q)) with (quad_position q);
      [reflexivity|].
    unfold quad_position, translate_quad, map_quad. simpl. rewrite !Rplus_0_r. reflexivity.
  - intros k Hk. unfold calculate_distance_from_qr_code.
    rewrite !edge_lengths_mean. unfold scale_quad, map_quad. simpl.
    rewrite !distance_btw_scale by lra.
    set (m := (distance_btw (c0 q) (c1 q) + distance_btw (c1 q) (c2 q) +
               distance_btw (c2 q) (c3 q)) / 3).
    replace ((k * distance_btw (c0 q) (c1 q) + k * distance_btw (c1 q) (c2 q) +
              k * distance_btw (c2 q) (c3 q)) / 3) with (k * m) by (unfold m; field).
    destruct (Req_dec m 0) as [Hm|Hm].
    + rewrite Hm, Rmult_0_r, np_div_zero_pos; [reflexivity|].
      unfold known_distance, known_width. lra.
    + rewrite !np_div_nonzero; [f_equal; field; lra | lra |].
      intro Hkm. apply Rmult_integral in Hkm. lra.
Qed.

(** The unit square drawn twice as large: the estimate halves. *)
Lemma distance_estimate_size_only_witness :
  calculate_distance_from_qr_code (scale_quad 2 unit_square) =
  match calculate_distance_from_qr_code unit_square with
  | Fin d => Fin (d / 2)
  | e => e
  end.
Proof. apply (proj2 (proj2 (distance_estimate_size_only unit_square)) 2). lra. Defined.
